(** * Key slot allocation and handover pool

    A shallow embedding of [slot_assignment_strategy.py] and
    [key_slot_manager.py], and of the methods of [key_management_app.py]
    that work on the manager, followed by the properties of the slot
    allocator and of the handover pool.

    Modelling choices.
    - Python [int] is [Z]; indices into Python lists are [nat].
    - Python [float] is IEEE 754 binary64, represented by [spec_float] with the
      comparison [SFcompare]; a comparison with NaN is false, as in Python.
    - [str] is [string] over 8-bit characters; [upper] acts on the letters
      a-z, which is what [str.upper] does on ASCII text.
    - [datetime.now()] is a reading of the clock: every operation that builds
      a record takes the reading [now] as an argument.
    - [self.slots] is a dict whose key set is [range(total_slots)], inserted
      in ascending order, and every method writes to existing keys only
      (lemma [run_inv]); it is a list indexed by the key, and iteration over
      [self.slots.values()] is iteration over that list.  A read of a missing
      key raises [KeyError] in Python and a write to a missing key would grow
      the dict; neither happens in a state satisfying [wf_slots], and the
      model answers "not available" for such a read and leaves the list alone
      for such a write.
    - [print] calls write to the console only and are left out: they do not
      touch the manager. *)

From Stdlib Require Import ZArith List String Ascii Lia Permutation.
From Stdlib Require Import Floats.SpecFloat.
From stdpp Require Import base list strings pretty.

Open Scope Z_scope.

(** ** Floats *)

Definition float := spec_float.

(** [x >= y] on Python floats. *)
Definition float_ge (x y : float) : bool := SFleb y x.

(** [x < y] on Python floats. *)
Definition float_lt (x y : float) : bool := SFltb x y.

(** The literals [3000.0] and [1500.0]: mantissa of 53 bits and exponent. *)
Definition f3000 : float := S754_finite false 6597069766656000 (-41).
Definition f1500 : float := S754_finite false 6597069766656000 (-42).

(** ** slot_assignment_strategy.py *)

(** The abstract base class: anything with a [get_slot_range] method. *)
Class SlotAssignmentStrategy (Strategy : Type) := {
  get_slot_range : Strategy → float → Z * Z
}.

Record PriceBasedSlotStrategy := {
  high_price_threshold : float;
  medium_price_threshold : float;
  high_price_slots : Z * Z;
  medium_price_slots : Z * Z;
  low_price_slots : Z * Z
}.

(** [PriceBasedSlotStrategy()] with the default arguments of [__init__]. *)
Definition default_strategy : PriceBasedSlotStrategy := {|
  high_price_threshold := f3000;
  medium_price_threshold := f1500;
  high_price_slots := (0, 50);
  medium_price_slots := (50, 100);
  low_price_slots := (100, 199)
|}.

Definition price_based_get_slot_range
    (self : PriceBasedSlotStrategy) (purchase_price : float) : Z * Z :=
  if float_ge purchase_price (high_price_threshold self) then
    high_price_slots self
  else if float_ge purchase_price (medium_price_threshold self) then
    medium_price_slots self
  else
    low_price_slots self.

#[export] Instance price_based_strategy :
    SlotAssignmentStrategy PriceBasedSlotStrategy :=
  {| get_slot_range := price_based_get_slot_range |}.

(** ** key_slot_manager.py: the records *)

Definition datetime := Z.

(** [Dict[str, Any]], carried around and never inspected. *)
Definition json_dict := list (string * string).

Module SlotAssignment.

Record t := {
  slot_number : Z;
  vehicle_id : string;
  license_plate : string;
  purchase_price : float;
  assigned_at : datetime;
  vehicle_data : option json_dict
}.

End SlotAssignment.

Module SoldVehicle.

Record t := {
  sold_slot : string;
  vehicle_id : string;
  license_plate : string;
  purchase_price : float;
  original_slot : Z;
  sold_at : datetime;
  sold_price : option float;
  buyer_info : option json_dict
}.

End SoldVehicle.

Definition SOLD_VEHICLE_SLOTS : nat := 10.

Record KeySlotManager (Strategy : Type) := {
  total_slots : Z;
  assignment_strategy : option Strategy;
  slots : list (option SlotAssignment.t);
  sold_vehicles : list (option SoldVehicle.t)
}.

Arguments total_slots {Strategy} _.
Arguments assignment_strategy {Strategy} _.
Arguments slots {Strategy} _.
Arguments sold_vehicles {Strategy} _.

(** ** Python built-ins used by the manager *)

(** [range(start, stop)]. *)
Definition range (start stop : Z) : list Z := seqZ start (stop - start).

(** [range(start, stop, -1)]. *)
Definition range_down (start stop : Z) : list Z :=
  reverse (seqZ (stop + 1) (start - stop)).

Definition upper_char (c : ascii) : ascii :=
  let n := nat_of_ascii c in
  if ((97 <=? n) && (n <=? 122))%nat then ascii_of_nat (n - 32) else c.

(** [s.upper()]. *)
Fixpoint upper (s : string) : string :=
  match s with
  | EmptyString => EmptyString
  | String c s' => String (upper_char c) (upper s')
  end.

(** [s.replace(c, "")] for a one-character [c]. *)
Fixpoint remove_char (c : ascii) (s : string) : string :=
  match s with
  | EmptyString => EmptyString
  | String x s' =>
      if Ascii.eqb x c then remove_char c s' else String x (remove_char c s')
  end.

(** [d[k]] on the slot dict, [None] standing for a missing key. *)
Definition slots_get (d : list (option SlotAssignment.t)) (k : Z)
    : option (option SlotAssignment.t) :=
  if 0 <=? k then d !! Z.to_nat k else None.

(** [d[k] = v] on the slot dict. *)
Definition slots_set (d : list (option SlotAssignment.t)) (k : Z)
    (v : option SlotAssignment.t) : list (option SlotAssignment.t) :=
  if 0 <=? k then <[Z.to_nat k := v]> d else d.

(** ** key_slot_manager.py: the manager *)

Section Manager.

Context {Strategy : Type} `{!SlotAssignmentStrategy Strategy}.

Abbreviation manager := (KeySlotManager Strategy).

Definition with_slots (self : manager) (d : list (option SlotAssignment.t))
    : manager :=
  {| total_slots := total_slots self;
     assignment_strategy := assignment_strategy self;
     slots := d;
     sold_vehicles := sold_vehicles self |}.

Definition with_sold_vehicles (self : manager)
    (l : list (option SoldVehicle.t)) : manager :=
  {| total_slots := total_slots self;
     assignment_strategy := assignment_strategy self;
     slots := slots self;
     sold_vehicles := l |}.

(** [KeySlotManager(total_slots, assignment_strategy)]. *)
Definition init (total_slots : Z) (assignment_strategy : option Strategy)
    : manager :=
  {| total_slots := total_slots;
     assignment_strategy := assignment_strategy;
     slots := (λ _, None) <$> range 0 total_slots;
     sold_vehicles := replicate SOLD_VEHICLE_SLOTS None |}.

Definition _normalize_license_plate (license_plate : string) : string :=
  remove_char "-" (remove_char " " (upper license_plate)).

(** [[a for a in self.slots.values() if a is not None]]. *)
Definition get_all_assignments (self : manager) : list SlotAssignment.t :=
  omap id (slots self).

(** [[v for v in self.sold_vehicles if v is not None]]. *)
Definition get_sold_vehicles (self : manager) : list SoldVehicle.t :=
  omap id (sold_vehicles self).

Definition assignment_matches (normalized : string) (a : SlotAssignment.t)
    : bool :=
  String.eqb (_normalize_license_plate (SlotAssignment.license_plate a))
    normalized.

Definition sold_matches (normalized : string) (v : SoldVehicle.t) : bool :=
  String.eqb (_normalize_license_plate (SoldVehicle.license_plate v))
    normalized.

(** Both loops skip the empty entries and return at the first match. *)
Definition is_duplicate_license_plate (self : manager)
    (license_plate : string) : bool :=
  let normalized := _normalize_license_plate license_plate in
  if existsb (assignment_matches normalized) (get_all_assignments self) then
    true
  else if existsb (sold_matches normalized) (get_sold_vehicles self) then
    true
  else
    false.

Definition is_slot_available (self : manager) (slot_number : Z) : bool :=
  if negb ((0 <=? slot_number) && (slot_number <? total_slots self)) then
    false
  else
    match slots_get (slots self) slot_number with
    | Some None => true
    | _ => false
    end.

Definition get_available_slot_in_range (self : manager)
    (min_slot max_slot : Z) : option Z :=
  snd <$> list_find (λ slot, is_slot_available self slot = true)
            (range min_slot (Z.min (max_slot + 1) (total_slots self))).

Definition get_highest_available_slot (self : manager) : option Z :=
  snd <$> list_find (λ slot, is_slot_available self slot = true)
            (range_down (total_slots self - 1) (-1)).

Definition assign_vehicle_to_slot (self : manager) (now : datetime)
    (slot_number : Z) (vehicle_id license_plate : string)
    (purchase_price : float) (vehicle_data : option json_dict)
    (check_duplicate : bool) : bool * manager :=
  if negb (is_slot_available self slot_number) then (false, self)
  else if check_duplicate && is_duplicate_license_plate self license_plate
  then (false, self)
  else
    let assignment := {|
      SlotAssignment.slot_number := slot_number;
      SlotAssignment.vehicle_id := vehicle_id;
      SlotAssignment.license_plate := license_plate;
      SlotAssignment.purchase_price := purchase_price;
      SlotAssignment.assigned_at := now;
      SlotAssignment.vehicle_data := vehicle_data
    |} in
    (true,
     with_slots self (slots_set (slots self) slot_number (Some assignment))).

(** The loop of the fallback branch of [assign_vehicle], over the remaining
    values of [range(self.total_slots)]. *)
Fixpoint assign_first_available (self : manager) (now : datetime)
    (candidates : list Z) (vehicle_id license_plate : string)
    (purchase_price : float) (vehicle_data : option json_dict)
    : option Z * manager :=
  match candidates with
  | [] => (None, self)
  | slot :: rest =>
      if is_slot_available self slot then
        let '(ok, self') :=
          assign_vehicle_to_slot self now slot vehicle_id license_plate
            purchase_price vehicle_data false in
        if ok then (Some slot, self')
        else assign_first_available self' now rest vehicle_id license_plate
               purchase_price vehicle_data
      else
        assign_first_available self now rest vehicle_id license_plate
          purchase_price vehicle_data
  end.

(** The overflow step of [assign_vehicle]. *)
Definition assign_overflow (self : manager) (now : datetime)
    (vehicle_id license_plate : string) (purchase_price : float)
    (vehicle_data : option json_dict) : option Z * manager :=
  match get_highest_available_slot self with
  | Some highest_slot =>
      let '(ok, self') :=
        assign_vehicle_to_slot self now highest_slot vehicle_id license_plate
          purchase_price vehicle_data false in
      if ok then (Some highest_slot, self') else (None, self')
  | None => (None, self)
  end.

Definition assign_vehicle (self : manager) (now : datetime)
    (vehicle_id license_plate : string) (purchase_price : float)
    (vehicle_data : option json_dict) : option Z * manager :=
  if is_duplicate_license_plate self license_plate then (None, self)
  else
    match assignment_strategy self with
    | None =>
        assign_first_available self now (range 0 (total_slots self))
          vehicle_id license_plate purchase_price vehicle_data
    | Some strategy =>
        let '(min_slot, max_slot) := get_slot_range strategy purchase_price in
        match get_available_slot_in_range self min_slot max_slot with
        | Some available_slot =>
            let '(ok, self') :=
              assign_vehicle_to_slot self now available_slot vehicle_id
                license_plate purchase_price vehicle_data false in
            if ok then (Some available_slot, self')
            else assign_overflow self' now vehicle_id license_plate
                   purchase_price vehicle_data
        | None =>
            assign_overflow self now vehicle_id license_plate purchase_price
              vehicle_data
        end
    end.

Definition add_vehicle_manually (self : manager) (now : datetime)
    (license_plate : string) (purchase_price : float)
    (vehicle_id : option string) (preferred_slot : option Z)
    (vehicle_data : option json_dict) : option Z * manager :=
  if is_duplicate_license_plate self license_plate then (None, self)
  else
    let vehicle_id :=
      match vehicle_id with
      | None => "MANUAL-" +:+ license_plate
      | Some v => v
      end in
    let auto (self : manager) :=
      assign_vehicle self now vehicle_id license_plate purchase_price
        vehicle_data in
    match preferred_slot with
    | Some preferred_slot =>
        if is_slot_available self preferred_slot then
          let '(ok, self') :=
            assign_vehicle_to_slot self now preferred_slot vehicle_id
              license_plate purchase_price vehicle_data false in
          if ok then (Some preferred_slot, self') else auto self'
        else auto self
    | None => auto self
    end.

Definition get_vehicle_by_license_plate (self : manager)
    (license_plate : string) : option SlotAssignment.t :=
  let normalized := _normalize_license_plate license_plate in
  find (assignment_matches normalized) (get_all_assignments self).

Definition mark_vehicle_as_sold (self : manager) (now : datetime)
    (license_plate : string) (sold_price : option float)
    (buyer_info : option json_dict) : bool * manager :=
  match get_vehicle_by_license_plate self license_plate with
  | None => (false, self)
  | Some assignment =>
      match list_find (λ sold, sold = None) (sold_vehicles self) with
      | None => (false, self)
      | Some (sold_slot_index, _) =>
          let sold_slot_name := "v" +:+ pretty (sold_slot_index + 1)%nat in
          let sold_vehicle := {|
            SoldVehicle.sold_slot := sold_slot_name;
            SoldVehicle.vehicle_id := SlotAssignment.vehicle_id assignment;
            SoldVehicle.license_plate :=
              SlotAssignment.license_plate assignment;
            SoldVehicle.purchase_price :=
              SlotAssignment.purchase_price assignment;
            SoldVehicle.original_slot :=
              SlotAssignment.slot_number assignment;
            SoldVehicle.sold_at := now;
            SoldVehicle.sold_price := sold_price;
            SoldVehicle.buyer_info := buyer_info
          |} in
          let self1 :=
            with_sold_vehicles self
              (<[sold_slot_index := Some sold_vehicle]> (sold_vehicles self)) in
          let self2 :=
            with_slots self1
              (slots_set (slots self1)
                 (SlotAssignment.slot_number assignment) None) in
          (true, self2)
      end
  end.

Definition sold_entry_matches (normalized : string)
    (sold : option SoldVehicle.t) : bool :=
  match sold with
  | Some v => sold_matches normalized v
  | None => false
  end.

Definition complete_vehicle_handover (self : manager)
    (license_plate : string) : bool * manager :=
  let normalized := _normalize_license_plate license_plate in
  match list_find (λ sold, sold_entry_matches normalized sold = true)
          (sold_vehicles self) with
  | Some (idx, _) =>
      (true, with_sold_vehicles self (<[idx := None]> (sold_vehicles self)))
  | None => (false, self)
  end.

Definition release_slot (self : manager) (slot_number : Z) : bool * manager :=
  if negb ((0 <=? slot_number) && (slot_number <? total_slots self)) then
    (false, self)
  else
    match slots_get (slots self) slot_number with
    | Some (Some _) =>
        (true, with_slots self (slots_set (slots self) slot_number None))
    | _ => (false, self)
    end.

Definition release_by_license_plate (self : manager) (license_plate : string)
    : bool * manager :=
  match get_vehicle_by_license_plate self license_plate with
  | None => (false, self)
  | Some assignment =>
      release_slot self (SlotAssignment.slot_number assignment)
  end.

Definition get_slot_assignment (self : manager) (slot_number : Z)
    : option SlotAssignment.t :=
  if negb ((0 <=? slot_number) && (slot_number <? total_slots self)) then None
  else mjoin (slots_get (slots self) slot_number).

End Manager.

(** ** Invariants, operation sequences and the specification's algorithm *)

Section Models.

Context {Strategy : Type} `{!SlotAssignmentStrategy Strategy}.

Abbreviation manager := (KeySlotManager Strategy).

(** The key set of [self.slots] is [range(total_slots)]. *)
Definition wf_slots (self : manager) : Prop :=
  length (slots self) = Z.to_nat (total_slots self).

(** An assignment's [slot_number] is the key it is stored under. *)
Definition slot_numbers_ok (self : manager) : Prop :=
  ∀ (i : nat) a,
    slots self !! i = Some (Some a) →
    SlotAssignment.slot_number a = Z.of_nat i.

(** The normalized plates of the slot table followed by those of the
    handover pool, one per entry. *)
Definition normalized_plates (self : manager) : list string :=
  ((λ a, _normalize_license_plate (SlotAssignment.license_plate a))
     <$> get_all_assignments self)
  ++ ((λ v, _normalize_license_plate (SoldVehicle.license_plate v))
        <$> get_sold_vehicles self).

Definition inv (self : manager) : Prop :=
  wf_slots self ∧ slot_numbers_ok self ∧ NoDup (normalized_plates self).

(** The assignment built by [assign_vehicle_to_slot]. *)
Definition new_assignment (now : datetime) (slot_number : Z)
    (vehicle_id license_plate : string) (purchase_price : float)
    (vehicle_data : option json_dict) : SlotAssignment.t :=
  {| SlotAssignment.slot_number := slot_number;
     SlotAssignment.vehicle_id := vehicle_id;
     SlotAssignment.license_plate := license_plate;
     SlotAssignment.purchase_price := purchase_price;
     SlotAssignment.assigned_at := now;
     SlotAssignment.vehicle_data := vehicle_data |}.

(** The state with a new assignment written at [slot_number]. *)
Definition place (self : manager) (now : datetime) (slot_number : Z)
    (vehicle_id license_plate : string) (purchase_price : float)
    (vehicle_data : option json_dict) : manager :=
  with_slots self
    (<[Z.to_nat slot_number :=
         Some (new_assignment now slot_number vehicle_id license_plate
                 purchase_price vehicle_data)]> (slots self)).


(** The record built by [mark_vehicle_as_sold] for the pool index [idx]. *)
Definition sold_record (now : datetime) (assignment : SlotAssignment.t)
    (idx : nat) (sold_price : option float) (buyer_info : option json_dict)
    : SoldVehicle.t :=
  {| SoldVehicle.sold_slot := "v" +:+ pretty (idx + 1)%nat;
     SoldVehicle.vehicle_id := SlotAssignment.vehicle_id assignment;
     SoldVehicle.license_plate := SlotAssignment.license_plate assignment;
     SoldVehicle.purchase_price := SlotAssignment.purchase_price assignment;
     SoldVehicle.original_slot := SlotAssignment.slot_number assignment;
     SoldVehicle.sold_at := now;
     SoldVehicle.sold_price := sold_price;
     SoldVehicle.buyer_info := buyer_info |}.

(** The state with the record written at pool index [idx] and the slot of
    the assignment cleared. *)
Definition move_to_pool (self : manager) (now : datetime)
    (assignment : SlotAssignment.t) (idx : nat) (sold_price : option float)
    (buyer_info : option json_dict) : manager :=
  with_slots
    (with_sold_vehicles self
       (<[idx := Some (sold_record now assignment idx sold_price buyer_info)]>
          (sold_vehicles self)))
    (slots_set (slots self) (SlotAssignment.slot_number assignment) None).

(** *** Sequences of operations *)

Inductive op :=
  | Assign (now : datetime) (vehicle_id license_plate : string)
      (purchase_price : float) (vehicle_data : option json_dict)
  | AddManually (now : datetime) (license_plate : string)
      (purchase_price : float) (vehicle_id : option string)
      (preferred_slot : option Z) (vehicle_data : option json_dict)
  | MarkSold (now : datetime) (license_plate : string)
      (sold_price : option float) (buyer_info : option json_dict)
  | CompleteHandover (license_plate : string)
  | ReleaseSlot (slot_number : Z)
  | ReleaseByPlate (license_plate : string).

(** The state after one call; the returned value is dropped. *)
Definition step (self : manager) (o : op) : manager :=
  match o with
  | Assign now v p price d => snd (assign_vehicle self now v p price d)
  | AddManually now p price v pref d =>
      snd (add_vehicle_manually self now p price v pref d)
  | MarkSold now p price b => snd (mark_vehicle_as_sold self now p price b)
  | CompleteHandover p => snd (complete_vehicle_handover self p)
  | ReleaseSlot k => snd (release_slot self k)
  | ReleaseByPlate p => snd (release_by_license_plate self p)
  end.

Definition run (self : manager) (ops : list op) : manager :=
  fold_left step ops self.

(** One [assign_vehicle] call. *)
Record assign_call := {
  call_now : datetime;
  call_vehicle_id : string;
  call_license_plate : string;
  call_price : float;
  call_data : option json_dict
}.

Definition do_assign (self : manager) (c : assign_call) : option Z * manager :=
  assign_vehicle self (call_now c) (call_vehicle_id c) (call_license_plate c)
    (call_price c) (call_data c).

(** The normalized plates of the accepted calls of a sequence of
    [assign_vehicle] calls, in call order. *)
Fixpoint accepted_plates (self : manager) (calls : list assign_call)
    : list string :=
  match calls with
  | [] => []
  | c :: rest =>
      let '(r, self') := do_assign self c in
      match r with
      | Some _ =>
          _normalize_license_plate (call_license_plate c)
            :: accepted_plates self' rest
      | None => accepted_plates self' rest
      end
  end.

(** *** The assign algorithm in the specification's words *)

Inductive Rejected := DuplicatePlate | TableFull.

(** Linear scan ascending from [i] over [n] indices. *)
Fixpoint scan_up (self : manager) (i : Z) (n : nat) : option Z :=
  match n with
  | O => None
  | S n' =>
      if is_slot_available self i then Some i else scan_up self (i + 1) n'
  end.

(** Linear scan descending from [i] over [n] indices. *)
Fixpoint scan_down (self : manager) (i : Z) (n : nat) : option Z :=
  match n with
  | O => None
  | S n' =>
      if is_slot_available self i then Some i else scan_down self (i - 1) n'
  end.

(** Ascending from [min] to [min(max, total_slots-1)]. *)
Definition spec_find_available_in_range (self : manager) (min max : Z)
    : option Z :=
  scan_up self min (Z.to_nat (Z.min max (total_slots self - 1) - min + 1)).

(** Descending from [total_slots-1] to 0. *)
Definition spec_find_highest_available (self : manager) : option Z :=
  scan_down self (total_slots self - 1) (Z.to_nat (total_slots self)).

Definition spec_assign (self : manager) (now : datetime)
    (vehicle_id license_plate : string) (purchase_price : float)
    (vehicle_data : option json_dict) : (Rejected + Z) * manager :=
  let placed i :=
    (inr i, place self now i vehicle_id license_plate purchase_price
              vehicle_data) in
  if is_duplicate_license_plate self license_plate then
    (inl DuplicatePlate, self)
  else
    match assignment_strategy self with
    | None =>
        match scan_up self 0 (Z.to_nat (total_slots self)) with
        | Some i => placed i
        | None => (inl TableFull, self)
        end
    | Some strategy =>
        let '(min, max) := get_slot_range strategy purchase_price in
        match spec_find_available_in_range self min max with
        | Some i => placed i
        | None =>
            match spec_find_highest_available self with
            | Some i => placed i
            | None => (inl TableFull, self)
            end
        end
    end.

(** What [assign_vehicle] returns for an outcome of the algorithm. *)
Definition returned_slot (r : Rejected + Z) : option Z :=
  match r with
  | inl _ => None
  | inr i => Some i
  end.

(** *** Sequences of sales *)

Record sale := {
  sale_now : datetime;
  sale_plate : string;
  sale_price : option float;
  sale_buyer : option json_dict
}.

Definition do_sale (self : manager) (c : sale) : bool * manager :=
  mark_vehicle_as_sold self (sale_now c) (sale_plate c) (sale_price c)
    (sale_buyer c).

Definition complete_all (self : manager) (plates : list string) : manager :=
  fold_left (λ s p, snd (complete_vehicle_handover s p)) plates self.

(** Each sale preceded by the [complete_vehicle_handover] calls listed
    with it. *)
Fixpoint mark_all_between (self : manager)
    (calls : list (list string * sale)) : list bool * manager :=
  match calls with
  | [] => ([], self)
  | (completed, c) :: rest =>
      let '(r, self') := do_sale (complete_all self completed) c in
      let '(rs, self'') := mark_all_between self' rest in
      (r :: rs, self'')
  end.

(** A sequence of sales with no handover completed in between. *)
Definition without_completions (sales : list sale)
    : list (list string * sale) :=
  (λ c, ([], c)) <$> sales.

(** [get_sold_vehicles_count]. *)
Definition get_sold_vehicles_count (self : manager) : nat :=
  length (get_sold_vehicles self).

Definition pool_empty (self : manager) : Prop :=
  sold_vehicles self = replicate SOLD_VEHICLE_SLOTS None.

Definition distinct_plates (plates : list string) : Prop :=
  NoDup (_normalize_license_plate <$> plates).

Definition all_in_table (self : manager) (plates : list string) : Prop :=
  ∀ p, p ∈ plates → is_Some (get_vehicle_by_license_plate self p).

(** The eleventh of eleven sales fails whatever handovers are completed in
    between. *)
Definition eleventh_fails_regardless (self : manager)
    (calls : list (list string * sale)) : Prop :=
  pool_empty self →
  length calls = 11%nat →
  distinct_plates (sale_plate ∘ snd <$> calls) →
  all_in_table self (sale_plate ∘ snd <$> calls) →
  fst (mark_all_between self calls) = replicate 10 true ++ [false].

End Models.

(** ** A stocked manager

    Two hundred slots, the default strategy, and eleven vehicles bought at
    3500 each. *)

Definition f3500 : float := S754_finite false 7696581394432000 (-41).

Definition stock_plates : list string :=
  ["KA-001"; "KA-002"; "KA-003"; "KA-004"; "KA-005"; "KA-006"; "KA-007";
   "KA-008"; "KA-009"; "KA-010"; "KA-011"].

Definition stocked : KeySlotManager PriceBasedSlotStrategy :=
  run (init 200 (Some default_strategy))
    ((λ p, Assign 0 ("V-" +:+ p) p f3500 None) <$> stock_plates).

(** The same manager with the slots 0 to 50 taken by fifty-one vehicles
    bought at 3500 each. *)
Definition high_tier_filled : KeySlotManager PriceBasedSlotStrategy :=
  run (init 200 (Some default_strategy))
    ((λ n : nat, Assign 0 ("V" +:+ pretty n) ("HT-" +:+ pretty n) f3500 None)
       <$> seq 0 51).

Definition sale_of (p : string) : sale :=
  {| sale_now := 1; sale_plate := p; sale_price := None; sale_buyer := None |}.

(** The eleven vehicles sold in turn, the handover of the first one completed
    before the last sale. *)
Definition sales_with_handover : list (list string * sale) :=
  without_completions (sale_of <$> take 10 stock_plates)
  ++ [(["ka 001"], sale_of "KA-011")].

(** ** key_slot_manager.py: the counts *)

Section Counts.

Context {Strategy : Type} `{!SlotAssignmentStrategy Strategy}.

Abbreviation manager := (KeySlotManager Strategy).

(** [sum(1 for assignment in self.slots.values() if assignment is None)]. *)
Definition get_available_slots_count (self : manager) : Z :=
  Z.of_nat (length (filter (λ assignment, assignment = None) (slots self))).

Definition get_occupied_slots_count (self : manager) : Z :=
  total_slots self - get_available_slots_count self.

(** The returned values of a sequence of [assign_vehicle] calls. *)
Fixpoint assign_all (self : manager) (calls : list assign_call)
    : list (option Z) * manager :=
  match calls with
  | [] => ([], self)
  | c :: rest =>
      let '(r, self') := do_assign self c in
      let '(rs, self'') := assign_all self' rest in
      (r :: rs, self'')
  end.

(** What the pool holds in every state the methods produce: ten entries,
    each record labelled after its index and remembering a slot of the
    table. *)
Definition pool_ok (self : manager) : Prop :=
  length (sold_vehicles self) = SOLD_VEHICLE_SLOTS ∧
  ∀ (idx : nat) v,
    sold_vehicles self !! idx = Some (Some v) →
    SoldVehicle.sold_slot v = "v" +:+ pretty (idx + 1)%nat ∧
    0 ≤ SoldVehicle.original_slot v < total_slots self.

End Counts.

(** ** key_management_app.py

    The methods of [KeyManagementApp] that work on [self.slot_manager]; they
    take the manager and return it with their result.  [isoformat] is the
    method of [datetime].  The methods that talk to the API client
    ([authenticate], [sync_vehicles_from_autoflex], [get_system_status]) and
    [print_slot_overview] are not modelled. *)

(** The values stored in the dictionaries the application returns. *)
Inductive py_value :=
  | PyNone
  | PyStr (s : string)
  | PyInt (n : Z)
  | PyFloat (x : float)
  | PyDict (d : json_dict).

Definition py_optional {A} (f : A → py_value) (o : option A) : py_value :=
  match o with
  | Some x => f x
  | None => PyNone
  end.

(** [d.get(key)] on a dictionary kept in insertion order. *)
Definition dict_get {V} (d : list (string * V)) (key : string) : option V :=
  snd <$> find (λ kv, String.eqb (fst kv) key) d.


Module KeyManagementApp.

Section App.

Context {Strategy : Type} `{!SlotAssignmentStrategy Strategy}.

Variable isoformat : datetime → string.

Abbreviation manager := (KeySlotManager Strategy).

Definition process_new_vehicle (slot_manager : manager) (now : datetime)
    (vehicle_id license_plate : string) (purchase_price : float)
    (vehicle_data : option json_dict) : option Z * manager :=
  match get_vehicle_by_license_plate slot_manager license_plate with
  | Some existing_assignment =>
      (Some (SlotAssignment.slot_number existing_assignment), slot_manager)
  | None =>
      assign_vehicle slot_manager now vehicle_id license_plate purchase_price
        vehicle_data
  end.



Definition find_vehicle (slot_manager : manager) (license_plate : string)
    : option (list (string * py_value)) :=
  match get_vehicle_by_license_plate slot_manager license_plate with
  | Some assignment =>
      Some [("status", PyStr "in_stock");
            ("slot_number", PyInt (SlotAssignment.slot_number assignment));
            ("license_plate",
             PyStr (SlotAssignment.license_plate assignment));
            ("purchase_price",
             PyFloat (SlotAssignment.purchase_price assignment));
            ("assigned_at",
             PyStr (isoformat (SlotAssignment.assigned_at assignment)));
            ("vehicle_data",
             py_optional PyDict (SlotAssignment.vehicle_data assignment))]
  | None =>
      let matches (sold : SoldVehicle.t) :=
        let normalized_search :=
          remove_char "-" (remove_char " " (upper license_plate)) in
        let normalized_plate :=
          remove_char "-"
            (remove_char " " (upper (SoldVehicle.license_plate sold))) in
        String.eqb normalized_search normalized_plate in
      match find matches (omap id (sold_vehicles slot_manager)) with
      | Some sold =>
          Some [("status", PyStr "sold");
                ("sold_slot", PyStr (SoldVehicle.sold_slot sold));
                ("original_slot", PyInt (SoldVehicle.original_slot sold));
                ("license_plate", PyStr (SoldVehicle.license_plate sold));
                ("purchase_price",
                 PyFloat (SoldVehicle.purchase_price sold));
                ("sold_at", PyStr (isoformat (SoldVehicle.sold_at sold)));
                ("sold_price",
                 py_optional PyFloat (SoldVehicle.sold_price sold))]
      | None => None
      end
  end.

(** The loop of [find_vehicle] over the pool: the first record whose plate
    matches. *)
Definition pool_search (slot_manager : manager) (license_plate : string)
    : option SoldVehicle.t :=
  find (λ sold,
          String.eqb
            (remove_char "-" (remove_char " " (upper license_plate)))
            (remove_char "-"
               (remove_char " " (upper (SoldVehicle.license_plate sold)))))
    (omap id (sold_vehicles slot_manager)).

Definition get_slot_status (slot_manager : manager) (slot_number : Z)
    : option (list (string * py_value)) :=
  match get_slot_assignment slot_manager slot_number with
  | None =>
      Some [("slot_number", PyInt slot_number);
            ("status", PyStr "available");
            ("vehicle_id", PyNone);
            ("license_plate", PyNone)]
  | Some assignment =>
      Some [("slot_number", PyInt slot_number);
            ("status", PyStr "occupied");
            ("vehicle_id", PyStr (SlotAssignment.vehicle_id assignment));
            ("license_plate",
             PyStr (SlotAssignment.license_plate assignment));
            ("purchase_price",
             PyFloat (SlotAssignment.purchase_price assignment));
            ("assigned_at",
             PyStr (isoformat (SlotAssignment.assigned_at assignment)))]
  end.

End App.

End KeyManagementApp.

(** The stocked manager after the sale of its first vehicle. *)
Definition stocked_sold : KeySlotManager PriceBasedSlotStrategy :=
  step stocked (MarkSold 1 "KA-001" None None).

(** Three purchases for a table without a strategy. *)
Definition three_calls : list assign_call :=
  (λ p, {| call_now := 0; call_vehicle_id := "V-" +:+ p;
           call_license_plate := p; call_price := f1500;
           call_data := None |})
    <$> ["AB-123-C"; "CD-456-E"; "EF-789-G"].

(** * Properties *)

(** ** Float comparison *)

Lemma SFcompare_antisym (x y : float) c :
  SFcompare x y = Some c → SFcompare y x = Some (CompOpp c).
Proof.
  destruct x as [sx|sx| |sx mx ex], y as [sy|sy| |sy my ey]; simpl;
    try discriminate;
    try (intros [= <-]; try destruct sx; try destruct sy; reflexivity).
  intros [= <-]. f_equal.
  destruct sx, sy; try reflexivity;
    rewrite (Z.compare_antisym ey ex);
    destruct (ey ?= ex) eqn:He; simpl; try reflexivity;
    change (Pos.compare_cont Eq mx my) with (Pos.compare mx my);
    change (Pos.compare_cont Eq my mx) with (Pos.compare my mx);
    rewrite (Pos.compare_antisym my mx);
    destruct (my ?= mx)%positive; reflexivity.
Qed.

(** [x < y] excludes [x >= y]. *)
Lemma float_lt_not_ge (x y : float) :
  float_lt x y = true → float_ge x y = false.
Proof.
  unfold float_lt, float_ge, SFltb, SFleb.
  destruct (SFcompare x y) as [[]|] eqn:Hc; try discriminate.
  intros _. by rewrite (SFcompare_antisym _ _ _ Hc).
Qed.

(** ** The default tier strategy *)

(** C3: with the default thresholds and ranges, [get_slot_range] returns
    (0,50) for a price >= 3000, (50,100) for 1500 <= price < 3000 and
    (100,199) for a price < 1500; the boundary prices 3000 and 1500 fall in
    the higher tier.  The function is total: it is defined on every float
    and reads nothing but its arguments. *)
Theorem default_get_slot_range (purchase_price : float) :
  (float_ge purchase_price f3000 = true →
     get_slot_range default_strategy purchase_price = (0, 50)) ∧
  (float_ge purchase_price f1500 = true →
   float_lt purchase_price f3000 = true →
     get_slot_range default_strategy purchase_price = (50, 100)) ∧
  (float_lt purchase_price f1500 = true →
     get_slot_range default_strategy purchase_price = (100, 199)) ∧
  get_slot_range default_strategy f3000 = (0, 50) ∧
  get_slot_range default_strategy f1500 = (50, 100).
Proof.
  repeat split; try reflexivity; simpl; unfold price_based_get_slot_range;
    simpl.
  - by intros ->.
  - intros Hm Hh. by rewrite (float_lt_not_ge _ _ Hh), Hm.
  - intros Hl. rewrite (float_lt_not_ge _ _ Hl).
    destruct (float_ge purchase_price f3000) eqn:Hh; [|done].
    exfalso. revert Hl Hh. unfold float_lt, float_ge, SFltb, SFleb, f1500, f3000.
    destruct purchase_price as [[]|[]| |[] m e];
      cbn -[Pos.compare_cont Z.compare]; try discriminate.
    destruct (Z.compare_spec e (-42)), (Z.compare_spec (-41) e);
      try discriminate; lia.
Qed.

(** A price of 3500, one of 2000 and one of 900. *)
Lemma default_get_slot_range_witness :
  get_slot_range default_strategy
    (S754_finite false 7696581394432000 (-41)) = (0, 50) ∧
  get_slot_range default_strategy
    (S754_finite false 8796093022208000 (-42)) = (50, 100) ∧
  get_slot_range default_strategy
    (S754_finite false 7916483719987200 (-43)) = (100, 199).
Proof.
  split; [|split].
  - apply (proj1 (default_get_slot_range _)). reflexivity.
  - apply (proj1 (proj2 (default_get_slot_range _))); reflexivity.
  - apply (proj1 (proj2 (proj2 (default_get_slot_range _)))). reflexivity.
Defined.

(** ** Lists of optional entries *)

Section Entries.

Context {A : Type}.

Implicit Types (l : list (option A)) (i : nat) (a : A).

Lemma omap_id_insert_free l i a :
  l !! i = Some None → omap id (<[i := Some a]> l) ≡ₚ a :: omap id l.
Proof.
  intros Hi.
  rewrite insert_take_drop by (by eapply lookup_lt_Some).
  rewrite <- (take_drop_middle l i None) at 3 by done.
  rewrite !omap_app. simpl. by rewrite Permutation_middle.
Qed.

Lemma omap_id_insert_clear l i a :
  l !! i = Some (Some a) → omap id l ≡ₚ a :: omap id (<[i := None]> l).
Proof.
  intros Hi.
  rewrite insert_take_drop by (by eapply lookup_lt_Some).
  rewrite <- (take_drop_middle l i (Some a)) at 1 by done.
  rewrite !omap_app. simpl. by rewrite Permutation_middle.
Qed.

Lemma elem_of_omap_id l a : a ∈ omap id l ↔ ∃ i, l !! i = Some (Some a).
Proof.
  rewrite list_elem_of_omap. split.
  - intros ([a'|] & Hin & Heq); simplify_eq/=.
    by apply list_elem_of_lookup in Hin.
  - intros [i Hi]. exists (Some a). split; [|done].
    apply list_elem_of_lookup. eauto.
Qed.

End Entries.

(** ** Reading and writing slots *)

Section Slots.

Context {Strategy : Type} `{!SlotAssignmentStrategy Strategy}.

Implicit Types (self : KeySlotManager Strategy) (k : Z).

Lemma is_slot_available_true self k :
  is_slot_available self k = true ↔
  0 ≤ k < total_slots self ∧ slots self !! Z.to_nat k = Some None.
Proof.
  unfold is_slot_available, slots_get.
  destruct (0 <=? k) eqn:H0; destruct (k <? total_slots self) eqn:H1; simpl;
    rewrite ?Z.leb_le, ?Z.leb_gt, ?Z.ltb_lt, ?Z.ltb_ge in *;
    try (split; [discriminate | lia]).
  destruct (slots self !! Z.to_nat k) as [[a|]|]; split; try done;
    try (intros [_ [=]]); lia.
Qed.

Lemma is_slot_available_false self k :
  is_slot_available self k = false ↔
  ¬ (0 ≤ k < total_slots self ∧ slots self !! Z.to_nat k = Some None).
Proof.
  rewrite <- is_slot_available_true.
  destruct (is_slot_available self k); split; try done; by intros [].
Qed.

Lemma assign_vehicle_to_slot_available self now k v p price d :
  is_slot_available self k = true →
  assign_vehicle_to_slot self now k v p price d false
  = (true, place self now k v p price d).
Proof.
  intros Hk. unfold assign_vehicle_to_slot. rewrite Hk. simpl.
  unfold place, slots_set.
  apply is_slot_available_true in Hk as [[H0 _] _].
  apply Z.leb_le in H0. by rewrite H0.
Qed.

Lemma assign_vehicle_to_slot_rejected self now k v p price d c :
  fst (assign_vehicle_to_slot self now k v p price d c) = false →
  snd (assign_vehicle_to_slot self now k v p price d c) = self.
Proof.
  unfold assign_vehicle_to_slot.
  destruct (negb (is_slot_available self k)); [done|].
  destruct (c && is_duplicate_license_plate self p); [done|]. discriminate.
Qed.

(** *** The two searches *)

Lemma range_lookup (start stop : Z) (i : nat) k :
  range start stop !! i = Some k ↔ k = start + Z.of_nat i ∧ k < stop.
Proof. unfold range. rewrite lookup_seqZ. lia. Qed.

Lemma elem_of_range (start stop k : Z) :
  k ∈ range start stop ↔ start ≤ k < stop.
Proof. unfold range. rewrite elem_of_seqZ. lia. Qed.

Lemma elem_of_range_down (start stop k : Z) :
  k ∈ range_down start stop ↔ stop < k ≤ start.
Proof. unfold range_down. rewrite elem_of_reverse, elem_of_seqZ. lia. Qed.

Lemma range_down_lookup (start stop : Z) (i : nat) k :
  range_down start stop !! i = Some k ↔ k = start - Z.of_nat i ∧ stop < k.
Proof.
  unfold range_down. rewrite reverse_lookup_Some, lookup_seqZ, length_seqZ.
  split.
  - intros [[-> ?] ?]. lia.
  - intros [-> ?]. lia.
Qed.

(** [get_available_slot_in_range] returns the lowest available index of
    the part of the range that lies below [total_slots]. *)
Lemma get_available_slot_in_range_Some self lo hi k :
  get_available_slot_in_range self lo hi = Some k ↔
  lo ≤ k ≤ hi ∧ is_slot_available self k = true ∧
  ∀ j, lo ≤ j < k → is_slot_available self j = false.
Proof.
  unfold get_available_slot_in_range. rewrite fmap_Some. split.
  - intros ([i k'] & Hf & ->). apply list_find_Some in Hf as (Hi & Hk & Hmin).
    simpl. apply range_lookup in Hi as [-> Hlt]. repeat split; try lia; [done|].
    intros j Hj. apply not_true_is_false.
    apply (Hmin (Z.to_nat (j - lo)) j); [|lia].
    apply range_lookup. lia.
  - intros (Hr & Hk & Hmin).
    exists (Z.to_nat (k - lo), k). split; [|done].
    apply list_find_Some. split; [|split; [done|]].
    + apply range_lookup. apply is_slot_available_true in Hk. lia.
    + intros j y Hj Hlt. apply range_lookup in Hj as [-> _].
      rewrite Hmin by lia. discriminate.
Qed.

Lemma get_available_slot_in_range_None self lo hi :
  get_available_slot_in_range self lo hi = None ↔
  ∀ j, lo ≤ j ≤ hi → is_slot_available self j = false.
Proof.
  unfold get_available_slot_in_range. rewrite fmap_None, list_find_None.
  rewrite Forall_forall. split.
  - intros Hall j Hj.
    destruct (is_slot_available self j) eqn:Hav; [|done].
    exfalso. apply (Hall j); [|done].
    apply elem_of_range. apply is_slot_available_true in Hav. lia.
  - intros Hall j Hj. apply elem_of_range in Hj.
    rewrite Hall by lia. discriminate.
Qed.

(** [get_highest_available_slot] returns the highest available index. *)
Lemma get_highest_available_slot_Some self k :
  get_highest_available_slot self = Some k ↔
  is_slot_available self k = true ∧
  ∀ j, k < j → is_slot_available self j = false.
Proof.
  unfold get_highest_available_slot. rewrite fmap_Some. split.
  - intros ([i k'] & Hf & ->). apply list_find_Some in Hf as (Hi & Hk & Hmax).
    simpl. apply range_down_lookup in Hi as [-> Hlt]. split; [done|].
    intros j Hj. apply not_true_is_false. intros Hav.
    pose proof Hav as Hav'. apply is_slot_available_true in Hav' as [Hj' _].
    apply (Hmax (Z.to_nat (total_slots self - 1 - j)) j); [|lia|done].
    apply range_down_lookup. lia.
  - intros (Hk & Hmax).
    exists (Z.to_nat (total_slots self - 1 - k), k). split; [|done].
    pose proof Hk as Hk'. apply is_slot_available_true in Hk' as [Hr _].
    apply list_find_Some. split; [|split; [done|]].
    + apply range_down_lookup. lia.
    + intros j y Hj Hlt. apply range_down_lookup in Hj as [-> _].
      rewrite Hmax by lia. discriminate.
Qed.

Lemma get_highest_available_slot_None self :
  get_highest_available_slot self = None ↔
  ∀ j, is_slot_available self j = false.
Proof.
  unfold get_highest_available_slot. rewrite fmap_None, list_find_None.
  rewrite Forall_forall. split.
  - intros Hall j.
    destruct (is_slot_available self j) eqn:Hav; [|done].
    exfalso. apply (Hall j); [|done].
    apply elem_of_range_down. apply is_slot_available_true in Hav. lia.
  - intros Hall j Hj. rewrite Hall. discriminate.
Qed.

End Slots.

(** ** The shape of every outcome of [assign_vehicle] *)

Section Assign.

Context {Strategy : Type} `{!SlotAssignmentStrategy Strategy}.

Implicit Types (self : KeySlotManager Strategy) (k : Z).

Lemma assign_first_available_find self now candidates v p price d :
  assign_first_available self now candidates v p price d
  = match list_find (λ slot, is_slot_available self slot = true) candidates with
    | Some (_, slot) => (Some slot, place self now slot v p price d)
    | None => (None, self)
    end.
Proof.
  induction candidates as [|slot rest IH]; [done|]. simpl.
  destruct (is_slot_available self slot) eqn:Hav.
  - rewrite assign_vehicle_to_slot_available by done.
    by rewrite decide_True.
  - rewrite decide_False by discriminate.
    rewrite IH. by destruct (list_find _ rest) as [[? ?]|].
Qed.

Lemma assign_overflow_highest self now v p price d :
  assign_overflow self now v p price d
  = match get_highest_available_slot self with
    | Some slot => (Some slot, place self now slot v p price d)
    | None => (None, self)
    end.
Proof.
  unfold assign_overflow.
  destruct (get_highest_available_slot self) as [slot|] eqn:Hh; [|done].
  apply get_highest_available_slot_Some in Hh as [Hav _].
  by rewrite assign_vehicle_to_slot_available.
Qed.

(** A call either changes nothing and returns [None], or writes a new
    assignment at an available slot and returns that slot. *)
Lemma assign_vehicle_cases self now v p price d :
  assign_vehicle self now v p price d = (None, self) ∨
  ∃ k, is_slot_available self k = true ∧
       is_duplicate_license_plate self p = false ∧
       assign_vehicle self now v p price d
       = (Some k, place self now k v p price d).
Proof.
  unfold assign_vehicle.
  destruct (is_duplicate_license_plate self p) eqn:Hdup; [by left|].
  destruct (assignment_strategy self) as [strategy|].
  - destruct (get_slot_range strategy price) as [lo hi].
    destruct (get_available_slot_in_range self lo hi) as [k|] eqn:Hr.
    + apply get_available_slot_in_range_Some in Hr as (_ & Hav & _).
      rewrite assign_vehicle_to_slot_available by done. right. eauto.
    + rewrite assign_overflow_highest.
      destruct (get_highest_available_slot self) as [k|] eqn:Hh; [|by left].
      apply get_highest_available_slot_Some in Hh as [Hav _]. right. eauto.
  - rewrite assign_first_available_find.
    destruct (list_find _ _) as [[i k]|] eqn:Hf; [|by left].
    apply list_find_Some in Hf as (_ & Hav & _). right. eauto.
Qed.

Lemma add_vehicle_manually_cases self now p price v pref d :
  add_vehicle_manually self now p price v pref d = (None, self) ∨
  ∃ k, is_slot_available self k = true ∧
       is_duplicate_license_plate self p = false ∧
       add_vehicle_manually self now p price v pref d
       = (Some k, place self now k (default ("MANUAL-" +:+ p) v) p price d).
Proof.
  unfold add_vehicle_manually.
  destruct (is_duplicate_license_plate self p) eqn:Hdup; [by left|].
  assert (Hauto :
    ∀ w, assign_vehicle self now w p price d = (None, self) ∨
    ∃ k, is_slot_available self k = true ∧ false = false ∧
         assign_vehicle self now w p price d
         = (Some k, place self now k w p price d)).
  { intros w. destruct (assign_vehicle_cases self now w p price d)
      as [?|(k & ? & ? & ?)]; [by left|right; eauto]. }
  destruct pref as [k|].
  - destruct (is_slot_available self k) eqn:Hav.
    + rewrite assign_vehicle_to_slot_available by done.
      right. exists k. by destruct v.
    + destruct v; apply Hauto.
  - destruct v; apply Hauto.
Qed.

(** ** The specification's scans *)

Lemma scan_up_find self i n :
  scan_up self i n
  = snd <$> list_find (λ slot, is_slot_available self slot = true)
              (seqZ i (Z.of_nat n)).
Proof.
  revert i. induction n as [|n IH]; intros i; [done|].
  rewrite Nat2Z.inj_succ, seqZ_cons by lia. simpl.
  destruct (is_slot_available self i) eqn:Hav.
  - by rewrite decide_True.
  - rewrite decide_False by discriminate.
    rewrite IH. replace (Z.succ i) with (i + 1) by lia.
    replace (Z.pred (Z.succ (Z.of_nat n))) with (Z.of_nat n) by lia.
    rewrite <- option_fmap_compose. by apply option_fmap_ext; intros [].
Qed.

Lemma scan_down_find self i n :
  scan_down self i n
  = snd <$> list_find (λ slot, is_slot_available self slot = true)
              (reverse (seqZ (i - Z.of_nat n + 1) (Z.of_nat n))).
Proof.
  revert i. induction n as [|n IH]; intros i; [done|].
  replace (Z.of_nat (S n)) with (Z.of_nat n + 1) by lia.
  rewrite seqZ_app by lia. rewrite reverse_app.
  replace (i - (Z.of_nat n + 1) + 1 + Z.of_nat n) with i by lia.
  change (seqZ i 1) with [i]. simpl.
  destruct (is_slot_available self i) eqn:Hav.
  - by rewrite decide_True.
  - rewrite decide_False by discriminate.
    rewrite IH.
    replace (i - 1 - Z.of_nat n + 1) with (i - (Z.of_nat n + 1) + 1) by lia.
    rewrite <- option_fmap_compose. by apply option_fmap_ext; intros [].
Qed.

Lemma spec_find_available_in_range_code self lo hi :
  spec_find_available_in_range self lo hi
  = get_available_slot_in_range self lo hi.
Proof.
  unfold spec_find_available_in_range, get_available_slot_in_range, range.
  rewrite scan_up_find.
  destruct (decide (lo ≤ Z.min hi (total_slots self - 1))) as [Hle|Hgt].
  - do 3 f_equal. lia.
  - rewrite !seqZ_nil by lia. done.
Qed.

Lemma spec_find_highest_available_code self :
  spec_find_highest_available self = get_highest_available_slot self.
Proof.
  unfold spec_find_highest_available, get_highest_available_slot, range_down.
  rewrite scan_down_find.
  destruct (decide (0 ≤ total_slots self)) as [Hle|Hgt].
  - do 4 f_equal; lia.
  - rewrite Z2Nat.nonpos by lia. rewrite !seqZ_nil by lia. done.
Qed.

Lemma assign_vehicle_spec_assign self now v p price d :
  assign_vehicle self now v p price d
  = (returned_slot (fst (spec_assign self now v p price d)),
     snd (spec_assign self now v p price d)).
Proof.
  unfold assign_vehicle, spec_assign.
  destruct (is_duplicate_license_plate self p); [done|].
  destruct (assignment_strategy self) as [strategy|].
  - destruct (get_slot_range strategy price) as [lo hi].
    rewrite spec_find_available_in_range_code,
      spec_find_highest_available_code.
    destruct (get_available_slot_in_range self lo hi) as [k|] eqn:Hr.
    + apply get_available_slot_in_range_Some in Hr as (_ & Hav & _).
      by rewrite assign_vehicle_to_slot_available.
    + rewrite assign_overflow_highest.
      by destruct (get_highest_available_slot self).
  - rewrite assign_first_available_find, scan_up_find. unfold range.
    replace (total_slots self - 0) with (total_slots self) by lia.
    destruct (decide (0 ≤ total_slots self)) as [Hle|Hgt].
    + rewrite Z2Nat.id by lia. by destruct (list_find _ _) as [[? ?]|].
    + rewrite Z2Nat.nonpos by lia. by rewrite !seqZ_nil by lia.
Qed.

(** C2: [assign_vehicle] computes the algorithm of the specification — a
    duplicate plate is rejected first; without a strategy the vehicle goes to
    the first free index scanning up from 0; with a strategy it goes to the
    first free index of the range of its price, else to the highest free
    index of the table; the call is rejected only when no index is free.
    The scans of the algorithm return the lowest free index of the range and
    the highest free index of the table. *)
Theorem assign_vehicle_refines_spec self now v p price d :
  assign_vehicle self now v p price d
  = (returned_slot (fst (spec_assign self now v p price d)),
     snd (spec_assign self now v p price d)) ∧
  (∀ k, scan_up self 0 (Z.to_nat (total_slots self)) = Some k ↔
        is_slot_available self k = true ∧
        ∀ j, 0 ≤ j < k → is_slot_available self j = false) ∧
  (∀ lo hi k, spec_find_available_in_range self lo hi = Some k ↔
        lo ≤ k ≤ hi ∧ is_slot_available self k = true ∧
        ∀ j, lo ≤ j < k → is_slot_available self j = false) ∧
  (∀ k, spec_find_highest_available self = Some k ↔
        is_slot_available self k = true ∧
        ∀ j, k < j → is_slot_available self j = false) ∧
  (fst (spec_assign self now v p price d) = inl TableFull ↔
   is_duplicate_license_plate self p = false ∧
   ∀ j, is_slot_available self j = false).
Proof.
  split; [apply assign_vehicle_spec_assign|].
  assert (Hup : ∀ k, scan_up self 0 (Z.to_nat (total_slots self)) = Some k ↔
    is_slot_available self k = true ∧
    ∀ j, 0 ≤ j < k → is_slot_available self j = false).
  { intros k.
    pose proof (spec_find_available_in_range_code self 0
                  (total_slots self - 1)) as Heq.
    unfold spec_find_available_in_range in Heq.
    replace (Z.min (total_slots self - 1) (total_slots self - 1) - 0 + 1)
      with (total_slots self) in Heq by lia.
    rewrite Heq, get_available_slot_in_range_Some. split.
    - by intros (_ & ? & ?).
    - intros [Hav ?]. pose proof Hav as [? _]%is_slot_available_true.
      split; [lia|done]. }
  split; [done|]. split.
  { intros lo hi k. rewrite spec_find_available_in_range_code.
    apply get_available_slot_in_range_Some. }
  split.
  { intros k. rewrite spec_find_highest_available_code.
    apply get_highest_available_slot_Some. }
  unfold spec_assign.
  destruct (is_duplicate_license_plate self p); [by split; [|intros []]|].
  assert (Hnone : spec_find_highest_available self = None ↔
    ∀ j, is_slot_available self j = false).
  { rewrite spec_find_highest_available_code.
    apply get_highest_available_slot_None. }
  destruct (assignment_strategy self) as [strategy|].
  - destruct (get_slot_range strategy price) as [lo hi].
    destruct (spec_find_available_in_range self lo hi) as [k|] eqn:Hr.
    + simpl. split; [done|]. intros [_ Hall].
      rewrite spec_find_available_in_range_code in Hr.
      apply get_available_slot_in_range_Some in Hr as (_ & Hav & _).
      by rewrite Hall in Hav.
    + destruct (spec_find_highest_available self) as [k|] eqn:Hh; simpl.
      * split; [done|]. intros [_ Hall]. by apply Hnone in Hall.
      * split; [|done]. intros _. split; [done|]. by apply Hnone.
  - destruct (scan_up self 0 (Z.to_nat (total_slots self))) as [k|] eqn:Hs;
      simpl.
    + split; [done|]. intros [_ Hall].
      destruct (proj1 (Hup k) eq_refl) as [Hav _]. by rewrite Hall in Hav.
    + split; [|done]. intros _. split; [done|]. intros j.
      destruct (is_slot_available self j) eqn:Hav; [|done]. exfalso.
      assert (Hex : ∃ k, is_slot_available self k = true ∧
                ∀ i, 0 ≤ i < k → is_slot_available self i = false).
      { pose proof Hav as [Hj _]%is_slot_available_true.
        pose proof (spec_find_available_in_range_code self 0 j) as Heq.
        destruct (get_available_slot_in_range self 0 j) as [k|] eqn:Hg.
        - apply get_available_slot_in_range_Some in Hg as (_ & ? & ?). eauto.
        - rewrite get_available_slot_in_range_None in Hg.
          rewrite Hg in Hav by lia. done. }
      destruct Hex as [k Hk]. apply Hup in Hk. discriminate.
Qed.

(** C6: when the strategy's range for the price has no available index but
    some index of the table is free, a non-duplicate vehicle is placed at
    the highest free index of the table. *)
Theorem assign_vehicle_overflow self now v p price d strategy lo hi :
  assignment_strategy self = Some strategy →
  get_slot_range strategy price = (lo, hi) →
  is_duplicate_license_plate self p = false →
  (∀ j, lo ≤ j ≤ hi → is_slot_available self j = false) →
  (∃ j, 0 ≤ j < total_slots self ∧ is_slot_available self j = true) →
  ∃ k, assign_vehicle self now v p price d
       = (Some k, place self now k v p price d) ∧
       get_highest_available_slot self = Some k ∧
       0 ≤ k < total_slots self ∧
       is_slot_available self k = true ∧
       (∀ j, k < j < total_slots self → is_slot_available self j = false) ∧
       slots (place self now k v p price d) !! Z.to_nat k
       = Some (Some (new_assignment now k v p price d)).
Proof.
  intros Hs Hrange Hdup Hfull (j & Hj & Hfree).
  unfold assign_vehicle. rewrite Hdup, Hs, Hrange.
  apply get_available_slot_in_range_None in Hfull. rewrite Hfull.
  rewrite assign_overflow_highest.
  destruct (get_highest_available_slot self) as [k|] eqn:Hh.
  - exists k. apply get_highest_available_slot_Some in Hh as [Hav Hmax].
    pose proof Hav as Hav'. apply is_slot_available_true in Hav' as [Hk Hl].
    repeat split; try done; try lia.
    + intros i Hi. apply Hmax. lia.
    + simpl. apply list_lookup_insert_eq. by eapply lookup_lt_Some.
  - rewrite get_highest_available_slot_None in Hh. by rewrite Hh in Hfree.
Qed.

(** C7: for a plate that is not a duplicate, [assign_vehicle] returns
    [None] (table full) exactly when no index of [0, total_slots) is free;
    so it succeeds as soon as one slot is free. *)
Theorem assign_vehicle_full_iff self now v p price d :
  is_duplicate_license_plate self p = false →
  (fst (assign_vehicle self now v p price d) = None ↔
   ∀ j, 0 ≤ j < total_slots self → is_slot_available self j = false) ∧
  ((∃ j, 0 ≤ j < total_slots self ∧ is_slot_available self j = true) →
   is_Some (fst (assign_vehicle self now v p price d))).
Proof.
  intros Hdup.
  assert (Hiff : fst (assign_vehicle self now v p price d) = None ↔
    ∀ j, 0 ≤ j < total_slots self → is_slot_available self j = false).
  { rewrite assign_vehicle_spec_assign. unfold spec_assign. rewrite Hdup.
    assert (Hnone : get_highest_available_slot self = None ↔
      ∀ j, 0 ≤ j < total_slots self → is_slot_available self j = false).
    { rewrite get_highest_available_slot_None. split; [by auto|].
      intros Hall j. destruct (is_slot_available self j) eqn:Hav; [|done].
      pose proof Hav as Hav'. apply is_slot_available_true in Hav' as [Hj _].
      by rewrite Hall in Hav. }
    destruct (assignment_strategy self) as [strategy|].
    - destruct (get_slot_range strategy price) as [lo hi].
      rewrite spec_find_available_in_range_code,
        spec_find_highest_available_code.
      destruct (get_available_slot_in_range self lo hi) as [k|] eqn:Hr.
      + simpl. split; [done|]. intros Hall.
        apply get_available_slot_in_range_Some in Hr as (_ & Hav & _).
        pose proof Hav as Hav'. apply is_slot_available_true in Hav' as [Hk _].
        by rewrite Hall in Hav.
      + destruct (get_highest_available_slot self) as [k|] eqn:Hh; simpl.
        * split; [done|]. intros Hall. by apply Hnone in Hall.
        * split; [|done]. intros _. by apply Hnone.
    - rewrite <- Hnone, <- spec_find_highest_available_code.
      clear Hnone. rewrite scan_up_find.
      unfold spec_find_highest_available. rewrite scan_down_find.
      replace (total_slots self - 1 - Z.of_nat (Z.to_nat (total_slots self)) + 1)
        with (0 + (total_slots self - Z.of_nat (Z.to_nat (total_slots self))))
        by lia.
      destruct (decide (0 ≤ total_slots self)) as [Hle|Hgt].
      + rewrite Z2Nat.id by lia. rewrite Z.sub_diag, Z.add_0_r.
        destruct (list_find _ (seqZ _ _)) as [[i k]|] eqn:Hf; simpl.
        * split; [done|]. rewrite fmap_None, list_find_None.
          apply list_find_Some in Hf as (Hi & Hav & _).
          intros Hall. rewrite Forall_forall in Hall.
          exfalso. apply (Hall k); [|done].
          apply elem_of_reverse. apply list_elem_of_lookup. eauto.
        * split; [|done]. intros _. rewrite fmap_None, list_find_None.
          apply list_find_None in Hf. rewrite Forall_forall in *.
          intros x Hx. rewrite elem_of_reverse in Hx. by apply Hf.
      + rewrite Z2Nat.nonpos by lia. by rewrite !seqZ_nil by lia. }
  split; [done|].
  intros (j & Hj & Hav).
  destruct (fst (assign_vehicle self now v p price d)) eqn:Hr; [by eexists|].
  rewrite (proj1 Hiff eq_refl j Hj) in Hav. discriminate.
Qed.

End Assign.

(** ** Plates held by the manager *)

Section Plates.

Context {Strategy : Type} `{!SlotAssignmentStrategy Strategy}.

Implicit Types (self : KeySlotManager Strategy) (k : Z) (p : string).

Lemma is_duplicate_license_plate_true self p :
  is_duplicate_license_plate self p = true ↔
  _normalize_license_plate p ∈ normalized_plates self.
Proof.
  unfold is_duplicate_license_plate, normalized_plates.
  rewrite elem_of_app, !list_elem_of_fmap.
  destruct (existsb _ (get_all_assignments self)) eqn:H1.
  - split; [|done]. intros _. left.
    apply existsb_exists in H1 as (a & Hin & Hm).
    apply String.eqb_eq in Hm. exists a. by rewrite list_elem_of_In.
  - destruct (existsb _ (get_sold_vehicles self)) eqn:H2.
    + split; [|done]. intros _. right.
      apply existsb_exists in H2 as (a & Hin & Hm).
      apply String.eqb_eq in Hm. exists a. by rewrite list_elem_of_In.
    + split; [done|]. intros [(a & Heq & Hin)|(a & Heq & Hin)]; exfalso.
      * apply not_true_iff_false in H1. apply H1, existsb_exists.
        exists a. split; [by apply list_elem_of_In|].
        by apply String.eqb_eq.
      * apply not_true_iff_false in H2. apply H2, existsb_exists.
        exists a. split; [by apply list_elem_of_In|].
        by apply String.eqb_eq.
Qed.

Lemma is_duplicate_license_plate_false self p :
  is_duplicate_license_plate self p = false ↔
  _normalize_license_plate p ∉ normalized_plates self.
Proof.
  rewrite <- is_duplicate_license_plate_true.
  by destruct (is_duplicate_license_plate self p).
Qed.

Lemma get_vehicle_by_license_plate_Some self p a :
  get_vehicle_by_license_plate self p = Some a →
  (∃ i, slots self !! i = Some (Some a)) ∧
  _normalize_license_plate (SlotAssignment.license_plate a)
  = _normalize_license_plate p.
Proof.
  unfold get_vehicle_by_license_plate. intros Hf.
  apply find_some in Hf as [Hin Hm]. split.
  - apply elem_of_omap_id. by apply list_elem_of_In.
  - by apply String.eqb_eq.
Qed.

Lemma get_vehicle_by_license_plate_None self p :
  get_vehicle_by_license_plate self p = None ↔
  ∀ i a, slots self !! i = Some (Some a) →
    _normalize_license_plate (SlotAssignment.license_plate a)
    ≠ _normalize_license_plate p.
Proof.
  unfold get_vehicle_by_license_plate. split.
  - intros Hf i a Hi Heq.
    assert (Hin : In a (get_all_assignments self)).
    { apply list_elem_of_In, elem_of_omap_id. eauto. }
    pose proof (find_none _ _ Hf a Hin) as Hm.
    unfold assignment_matches in Hm. apply String.eqb_neq in Hm. done.
  - intros Hall.
    destruct (find _ _) as [a|] eqn:Hf; [|done].
    apply find_some in Hf as [Hin Hm]. apply String.eqb_eq in Hm.
    apply list_elem_of_In, elem_of_omap_id in Hin as [i Hi].
    by destruct (Hall i a Hi).
Qed.

(** *** How each write changes the held plates *)

Lemma normalized_plates_place self now k v p price d :
  is_slot_available self k = true →
  normalized_plates (place self now k v p price d)
  ≡ₚ _normalize_license_plate p :: normalized_plates self.
Proof.
  intros [_ Hk]%is_slot_available_true.
  unfold normalized_plates, get_all_assignments, get_sold_vehicles. simpl.
  by rewrite (omap_id_insert_free _ _ _ Hk).
Qed.

Lemma normalized_plates_clear self i a :
  slots self !! i = Some (Some a) →
  normalized_plates self
  ≡ₚ _normalize_license_plate (SlotAssignment.license_plate a)
     :: normalized_plates (with_slots self (<[i := None]> (slots self))).
Proof.
  intros Hi.
  unfold normalized_plates, get_all_assignments, get_sold_vehicles. simpl.
  by rewrite (omap_id_insert_clear _ _ _ Hi) at 1.
Qed.

Lemma normalized_plates_handover self idx r :
  sold_vehicles self !! idx = Some (Some r) →
  normalized_plates self
  ≡ₚ _normalize_license_plate (SoldVehicle.license_plate r)
     :: normalized_plates
          (with_sold_vehicles self (<[idx := None]> (sold_vehicles self))).
Proof.
  intros Hi.
  unfold normalized_plates, get_all_assignments, get_sold_vehicles. simpl.
  rewrite (omap_id_insert_clear _ _ _ Hi) at 1. simpl.
  by rewrite Permutation_middle.
Qed.

Lemma normalized_plates_move self now i a idx sp b :
  slots self !! i = Some (Some a) →
  SlotAssignment.slot_number a = Z.of_nat i →
  sold_vehicles self !! idx = Some None →
  normalized_plates (move_to_pool self now a idx sp b)
  ≡ₚ normalized_plates self.
Proof.
  intros Hi Hn Hidx.
  unfold normalized_plates, get_all_assignments, get_sold_vehicles,
    move_to_pool, slots_set. simpl.
  rewrite Hn. rewrite (proj2 (Z.leb_le 0 _)) by lia. rewrite Nat2Z.id.
  rewrite (omap_id_insert_free _ _ _ Hidx).
  rewrite (omap_id_insert_clear _ _ _ Hi) at 1. simpl.
  by rewrite Permutation_middle.
Qed.

End Plates.

(** ** Preservation of the invariant *)

Section Preservation.

Context {Strategy : Type} `{!SlotAssignmentStrategy Strategy}.

Implicit Types (self : KeySlotManager Strategy) (k : Z) (p : string).

Lemma omap_id_all_None {A B} (l : list B) :
  omap id ((λ _, @None A) <$> l) = [].
Proof. by induction l. Qed.

Lemma inv_init (total : Z) (strategy : option Strategy) :
  inv (init total strategy).
Proof.
  repeat split.
  - unfold wf_slots, init, range. simpl.
    rewrite length_fmap, length_seqZ. f_equal. lia.
  - intros i a. unfold init. simpl. rewrite list_lookup_fmap.
    by destruct (range 0 total !! i).
  - unfold normalized_plates, get_all_assignments, get_sold_vehicles, init.
    simpl. rewrite omap_id_all_None. simpl. constructor.
Qed.

Lemma inv_place self now k v p price d :
  inv self →
  is_slot_available self k = true →
  is_duplicate_license_plate self p = false →
  inv (place self now k v p price d).
Proof.
  intros (Hwf & Hnum & Hnd) Hav Hdup. split; [|split].
  - unfold wf_slots, place. simpl. by rewrite length_insert.
  - intros i a. unfold place. simpl.
    apply is_slot_available_true in Hav as [Hk Hfree].
    destruct (decide (i = Z.to_nat k)) as [->|Hne].
    + rewrite list_lookup_insert_eq by (by eapply lookup_lt_Some).
      intros [= <-]. simpl. lia.
    + rewrite list_lookup_insert_ne by done. apply Hnum.
  - rewrite normalized_plates_place by done. constructor; [|done].
    by apply is_duplicate_license_plate_false.
Qed.

Lemma inv_clear self i a :
  inv self →
  slots self !! i = Some (Some a) →
  inv (with_slots self (<[i := None]> (slots self))).
Proof.
  intros (Hwf & Hnum & Hnd) Hi. split; [|split].
  - unfold wf_slots. simpl. by rewrite length_insert.
  - intros j a'. simpl. destruct (decide (j = i)) as [->|Hne].
    + by rewrite list_lookup_insert_eq by (by eapply lookup_lt_Some).
    + rewrite list_lookup_insert_ne by done. apply Hnum.
  - rewrite (normalized_plates_clear _ _ _ Hi) in Hnd.
    by apply NoDup_cons in Hnd as [_ ?].
Qed.

Lemma inv_handover self idx r :
  inv self →
  sold_vehicles self !! idx = Some (Some r) →
  inv (with_sold_vehicles self (<[idx := None]> (sold_vehicles self))).
Proof.
  intros (Hwf & Hnum & Hnd) Hi. split; [done|split; [done|]].
  rewrite (normalized_plates_handover _ _ _ Hi) in Hnd.
  by apply NoDup_cons in Hnd as [_ ?].
Qed.

Lemma inv_move self now i a idx sp b :
  inv self →
  slots self !! i = Some (Some a) →
  sold_vehicles self !! idx = Some None →
  inv (move_to_pool self now a idx sp b).
Proof.
  intros (Hwf & Hnum & Hnd) Hi Hidx.
  pose proof (Hnum i a Hi) as Hn. split; [|split].
  - unfold wf_slots, move_to_pool, slots_set. simpl.
    destruct (0 <=? _); by rewrite ?length_insert.
  - intros j a'. unfold move_to_pool, slots_set. simpl.
    rewrite Hn, (proj2 (Z.leb_le 0 _)), Nat2Z.id by lia.
    destruct (decide (j = i)) as [->|Hne].
    + by rewrite list_lookup_insert_eq by (by eapply lookup_lt_Some).
    + rewrite list_lookup_insert_ne by done. apply Hnum.
  - by rewrite (normalized_plates_move _ _ i).
Qed.

(** *** The outcomes of the other operations *)

Lemma mark_vehicle_as_sold_unfold self now p sp b :
  mark_vehicle_as_sold self now p sp b
  = match get_vehicle_by_license_plate self p with
    | None => (false, self)
    | Some a =>
        match list_find (λ sold, sold = None) (sold_vehicles self) with
        | None => (false, self)
        | Some (idx, _) => (true, move_to_pool self now a idx sp b)
        end
    end.
Proof.
  unfold mark_vehicle_as_sold.
  destruct (get_vehicle_by_license_plate self p); [|done].
  by destruct (list_find _ _) as [[? ?]|].
Qed.

Lemma release_slot_cases self k :
  release_slot self k = (false, self) ∨
  ∃ a, slots self !! Z.to_nat k = Some (Some a) ∧
       release_slot self k
       = (true, with_slots self (<[Z.to_nat k := None]> (slots self))).
Proof.
  unfold release_slot, slots_get, slots_set.
  destruct (0 <=? k) eqn:Hk; simpl; [|by left].
  destruct (k <? total_slots self); simpl; [|by left].
  destruct (slots self !! Z.to_nat k) as [[a|]|] eqn:Hl; [|by left..].
  right. eauto.
Qed.

Lemma complete_vehicle_handover_cases self p :
  (complete_vehicle_handover self p = (false, self) ∧
   ∀ idx r, sold_vehicles self !! idx = Some (Some r) →
     _normalize_license_plate (SoldVehicle.license_plate r)
     ≠ _normalize_license_plate p) ∨
  ∃ idx r,
    sold_vehicles self !! idx = Some (Some r) ∧
    _normalize_license_plate (SoldVehicle.license_plate r)
    = _normalize_license_plate p ∧
    (∀ j r', sold_vehicles self !! j = Some (Some r') → (j < idx)%nat →
       _normalize_license_plate (SoldVehicle.license_plate r')
       ≠ _normalize_license_plate p) ∧
    complete_vehicle_handover self p
    = (true, with_sold_vehicles self (<[idx := None]> (sold_vehicles self))).
Proof.
  unfold complete_vehicle_handover.
  destruct (list_find _ _) as [[idx o]|] eqn:Hf.
  - right. apply list_find_Some in Hf as (Hi & Hm & Hmin).
    destruct o as [r|]; [|done]. exists idx, r.
    split; [done|]. split; [by apply String.eqb_eq|]. split; [|done].
    intros j r' Hj Hlt Heq. apply (Hmin j (Some r') Hj Hlt).
    by apply String.eqb_eq.
  - left. split; [done|]. intros idx r Hi Heq.
    rewrite list_find_None, Forall_forall in Hf.
    apply (Hf (Some r)); [by eapply list_elem_of_lookup_2|].
    by apply String.eqb_eq.
Qed.

Lemma step_inv self o : inv self → inv (step self o).
Proof.
  intros Hinv. destruct o as [now v p price d|now p price v pref d
    |now p sp b|p|k|p]; simpl.
  - destruct (assign_vehicle_cases self now v p price d)
      as [->|(k & Hav & Hdup & ->)]; [done|]. by apply inv_place.
  - destruct (add_vehicle_manually_cases self now p price v pref d)
      as [->|(k & Hav & Hdup & ->)]; [done|]. by apply inv_place.
  - rewrite mark_vehicle_as_sold_unfold.
    destruct (get_vehicle_by_license_plate self p) as [a|] eqn:Hg; [|done].
    destruct (list_find _ _) as [[idx o]|] eqn:Hf; [|done].
    apply get_vehicle_by_license_plate_Some in Hg as [[i Hi] _].
    apply list_find_Some in Hf as (Hidx & -> & _).
    by apply (inv_move _ _ i).
  - destruct (complete_vehicle_handover_cases self p)
      as [[-> _]|(idx & r & Hi & _ & _ & ->)]; [done|].
    by apply (inv_handover _ _ r).
  - destruct (release_slot_cases self k) as [->|(a & Hk & ->)]; [done|].
    by apply (inv_clear _ _ a).
  - unfold release_by_license_plate.
    destruct (get_vehicle_by_license_plate self p) as [a|]; [|done].
    destruct (release_slot_cases self (SlotAssignment.slot_number a))
      as [->|(a' & Hk & ->)]; [done|].
    by apply (inv_clear _ _ a').
Qed.

Lemma run_inv self ops : inv self → inv (run self ops).
Proof.
  revert self. induction ops as [|o ops IH]; intros self Hinv; [done|].
  simpl. by apply IH, step_inv.
Qed.

(** Accepted calls of a sequence of [assign_vehicle] calls carry pairwise
    different plates, none of which was held before the sequence. *)
Lemma accepted_plates_fresh self calls :
  NoDup (accepted_plates self calls) ∧
  ∀ q, q ∈ accepted_plates self calls → q ∉ normalized_plates self.
Proof.
  revert self. induction calls as [|c calls IH]; intros self; simpl.
  - split; [constructor|]. by intros q ?%elem_of_nil.
  - unfold do_assign.
    destruct (assign_vehicle_cases self (call_now c) (call_vehicle_id c)
      (call_license_plate c) (call_price c) (call_data c))
      as [->|(k & Hav & Hdup & ->)]; [apply IH|].
    destruct (IH (place self (call_now c) k (call_vehicle_id c)
      (call_license_plate c) (call_price c) (call_data c))) as [Hnd Hfresh].
    apply is_duplicate_license_plate_false in Hdup.
    split.
    + constructor; [|done]. intros Hin. apply (Hfresh _ Hin).
      rewrite normalized_plates_place by done. by left.
    + intros q [->|Hin]%elem_of_cons; [done|].
      intros Hq. apply (Hfresh _ Hin).
      rewrite normalized_plates_place by done. by right.
Qed.

(** C1: in every state reached from an empty manager by the operations
    of the manager, the normalized plates of the slot table and of the
    handover pool together are pairwise different; an [assign_vehicle] call
    is accepted there only for a plate that no held entry carries; and the
    accepted calls of a following sequence of [assign_vehicle] calls carry
    pairwise different normalized plates. *)
Theorem one_entry_per_plate (total : Z) (strategy : option Strategy) ops :
  let self := run (init total strategy) ops in
  NoDup (normalized_plates self) ∧
  (∀ now v p price d,
     is_Some (fst (assign_vehicle self now v p price d)) →
     (_normalize_license_plate p ∉ normalized_plates self) ∧
     NoDup (normalized_plates (snd (assign_vehicle self now v p price d)))) ∧
  (∀ calls, NoDup (accepted_plates self calls)).
Proof.
  intros self.
  assert (Hinv : inv self) by apply run_inv, inv_init.
  split; [apply Hinv|]. split.
  - intros now v p price d Hsome.
    destruct (assign_vehicle_cases self now v p price d)
      as [Heq|(k & Hav & Hdup & Heq)]; rewrite Heq in *.
    + by destruct Hsome.
    + split; [by apply is_duplicate_license_plate_false|].
      by apply inv_place.
  - intros calls. apply accepted_plates_fresh.
Qed.

(** C5: a rejected [assign_vehicle] and a rejected [mark_vehicle_as_sold]
    leave the manager exactly as it was. *)
Theorem rejected_leaves_state self now v p price d sp b :
  (fst (assign_vehicle self now v p price d) = None →
   snd (assign_vehicle self now v p price d) = self) ∧
  (fst (mark_vehicle_as_sold self now p sp b) = false →
   snd (mark_vehicle_as_sold self now p sp b) = self).
Proof.
  split.
  - destruct (assign_vehicle_cases self now v p price d)
      as [->|(k & _ & _ & ->)]; [done|discriminate].
  - rewrite mark_vehicle_as_sold_unfold.
    destruct (get_vehicle_by_license_plate self p); [|done].
    by destruct (list_find _ _) as [[? ?]|].
Qed.

End Preservation.

(** ** Sale and handover *)

Section Handover.

Context {Strategy : Type} `{!SlotAssignmentStrategy Strategy}.

Implicit Types (self : KeySlotManager Strategy) (k : Z) (p : string).

Lemma table_plate_held self i a :
  slots self !! i = Some (Some a) →
  _normalize_license_plate (SlotAssignment.license_plate a)
  ∈ normalized_plates self.
Proof.
  intros Hi. unfold normalized_plates. apply elem_of_app. left.
  apply list_elem_of_fmap. exists a. split; [done|].
  apply elem_of_omap_id. eauto.
Qed.

Lemma pool_plate_held self idx r :
  sold_vehicles self !! idx = Some (Some r) →
  _normalize_license_plate (SoldVehicle.license_plate r)
  ∈ normalized_plates self.
Proof.
  intros Hi. unfold normalized_plates. apply elem_of_app. right.
  apply list_elem_of_fmap. exists r. split; [done|].
  apply elem_of_omap_id. eauto.
Qed.

(** Under the invariant a plate of the table is held nowhere else. *)
Lemma table_plate_elsewhere self i a :
  inv self →
  slots self !! i = Some (Some a) →
  _normalize_license_plate (SlotAssignment.license_plate a)
  ∉ normalized_plates (with_slots self (<[i := None]> (slots self))).
Proof.
  intros (_ & _ & Hnd) Hi.
  rewrite (normalized_plates_clear _ _ _ Hi) in Hnd.
  by apply NoDup_cons in Hnd as [? _].
Qed.

Lemma table_plate_unique self i j a a' :
  inv self →
  slots self !! i = Some (Some a) →
  slots self !! j = Some (Some a') →
  _normalize_license_plate (SlotAssignment.license_plate a)
  = _normalize_license_plate (SlotAssignment.license_plate a') →
  i = j.
Proof.
  intros Hinv Hi Hj Heq.
  destruct (decide (i = j)) as [|Hne]; [done|]. exfalso.
  apply (table_plate_elsewhere _ _ _ Hinv Hi). rewrite Heq.
  apply (table_plate_held _ j). simpl. by rewrite list_lookup_insert_ne.
Qed.

Lemma table_plate_not_in_pool self i a idx r :
  inv self →
  slots self !! i = Some (Some a) →
  sold_vehicles self !! idx = Some (Some r) →
  _normalize_license_plate (SoldVehicle.license_plate r)
  ≠ _normalize_license_plate (SlotAssignment.license_plate a).
Proof.
  intros Hinv Hi Hidx Heq.
  apply (table_plate_elsewhere _ _ _ Hinv Hi). rewrite <- Heq.
  by apply (pool_plate_held _ idx).
Qed.

Lemma get_vehicle_by_license_plate_held self p i a :
  inv self →
  slots self !! i = Some (Some a) →
  _normalize_license_plate (SlotAssignment.license_plate a)
  = _normalize_license_plate p →
  get_vehicle_by_license_plate self p = Some a.
Proof.
  intros Hinv Hi Heq.
  destruct (get_vehicle_by_license_plate self p) as [a'|] eqn:Hg.
  - apply get_vehicle_by_license_plate_Some in Hg as [[j Hj] Heq'].
    assert (i = j) as <-.
    { apply (table_plate_unique self i j a a'); congruence. }
    congruence.
  - rewrite get_vehicle_by_license_plate_None in Hg.
    by destruct (Hg i a Hi).
Qed.

Lemma filter_nothing {A} (f : A → bool) (l : list A) :
  (∀ x, x ∈ l → f x = false) → List.filter f l = [].
Proof.
  induction l as [|x l IH]; intros Hall; [done|]. simpl.
  rewrite Hall by left. apply IH. intros y Hy. apply Hall. by right.
Qed.

Lemma filter_omap_id_insert {A} (f : A → bool) (l : list (option A)) idx r :
  l !! idx = Some None →
  (∀ j x, l !! j = Some (Some x) → f x = false) →
  f r = true →
  List.filter f (omap id (<[idx := Some r]> l)) = [r].
Proof.
  intros Hidx Hall Hr.
  assert (Hsub : ∀ l', l' ⊆ l → List.filter f (omap id l') = []).
  { intros l' Hsub. apply filter_nothing. intros x Hx.
    apply elem_of_omap_id in Hx as [j Hj].
    apply list_elem_of_lookup_2, Hsub, list_elem_of_lookup in Hj as [j' Hj'].
    by apply (Hall j'). }
  rewrite insert_take_drop by (by eapply lookup_lt_Some).
  rewrite omap_app, List.filter_app. simpl. rewrite Hr.
  rewrite !Hsub; [done|apply subseteq_drop|apply subseteq_take].
Qed.

(** C4: when a plate occupies slot [s] and the pool has a free index,
    [mark_vehicle_as_sold] succeeds and, in one step, writes at the first
    free pool index a record that copies the vehicle id, the plate and the
    purchase price and whose [original_slot] is [s], and clears slot [s];
    afterwards the plate is not found in the slot table and exactly one
    pending record matches it. *)
Theorem mark_vehicle_as_sold_moves self now p sp b (s : nat) a :
  inv self →
  slots self !! s = Some (Some a) →
  _normalize_license_plate (SlotAssignment.license_plate a)
  = _normalize_license_plate p →
  (∃ j, sold_vehicles self !! j = Some None) →
  ∃ idx,
    let r := sold_record now a idx sp b in
    let self' := snd (mark_vehicle_as_sold self now p sp b) in
    sold_vehicles self !! idx = Some None ∧
    (∀ j, (j < idx)%nat → sold_vehicles self !! j ≠ Some None) ∧
    fst (mark_vehicle_as_sold self now p sp b) = true ∧
    sold_vehicles self' = <[idx := Some r]> (sold_vehicles self) ∧
    slots self' = <[s := None]> (slots self) ∧
    sold_vehicles self' !! idx = Some (Some r) ∧
    SoldVehicle.original_slot r = Z.of_nat s ∧
    SoldVehicle.vehicle_id r = SlotAssignment.vehicle_id a ∧
    SoldVehicle.license_plate r = SlotAssignment.license_plate a ∧
    SoldVehicle.purchase_price r = SlotAssignment.purchase_price a ∧
    slots self' !! s = Some None ∧
    get_vehicle_by_license_plate self' p = None ∧
    List.filter (sold_matches (_normalize_license_plate p))
      (get_sold_vehicles self') = [r].
Proof.
  intros Hinv Hs Heq [j Hj].
  pose proof Hinv as (Hwf & Hnum & Hnd).
  destruct (list_find (λ sold, sold = None) (sold_vehicles self))
    as [[idx o]|] eqn:Hf.
  2: { rewrite list_find_None, Forall_forall in Hf.
       by destruct (Hf None (list_elem_of_lookup_2 _ _ _ Hj)). }
  apply list_find_Some in Hf as Hf'. destruct Hf' as (Hidx & -> & Hmin).
  exists idx. simpl.
  rewrite mark_vehicle_as_sold_unfold.
  rewrite (get_vehicle_by_license_plate_held _ _ _ _ Hinv Hs Heq), Hf.
  unfold move_to_pool. simpl.
  assert (Hset : slots_set (slots self) (SlotAssignment.slot_number a) None
                 = <[s := None]> (slots self)).
  { unfold slots_set. rewrite (Hnum s a Hs).
    by rewrite (proj2 (Z.leb_le 0 _)), Nat2Z.id by lia. }
  rewrite Hset.
  assert (Hlt : (s < length (slots self))%nat) by (by eapply lookup_lt_Some).
  assert (Hlt' : (idx < length (sold_vehicles self))%nat)
    by (by eapply lookup_lt_Some).
  repeat split; try done.
  - intros i Hi Hnone. by apply (Hmin i None).
  - by apply list_lookup_insert_eq.
  - by apply Hnum.
  - by apply list_lookup_insert_eq.
  - apply get_vehicle_by_license_plate_None. simpl. intros i a' Hi Heq'.
    destruct (decide (i = s)) as [->|Hne].
    + by rewrite list_lookup_insert_eq in Hi.
    + rewrite list_lookup_insert_ne in Hi by done.
      apply Hne. apply (table_plate_unique self i s a' a); congruence.
  - unfold get_sold_vehicles. simpl. apply filter_omap_id_insert; [done| |].
    + intros i x Hi. apply String.eqb_neq. rewrite <- Heq.
      by apply (table_plate_not_in_pool self s a i x).
    + by apply String.eqb_eq.
Qed.

(** C10: [complete_vehicle_handover] leaves the slot table alone; when it
    returns [True] it has cleared one pool index, which held a record with
    the given plate, and every other pool index holds what it held; when no
    record matches it returns [False] and the manager is unchanged. *)
Theorem complete_vehicle_handover_frame self p :
  let r := complete_vehicle_handover self p in
  slots (snd r) = slots self ∧
  total_slots (snd r) = total_slots self ∧
  assignment_strategy (snd r) = assignment_strategy self ∧
  ((∀ idx v, sold_vehicles self !! idx = Some (Some v) →
      _normalize_license_plate (SoldVehicle.license_plate v)
      ≠ _normalize_license_plate p) →
   r = (false, self)) ∧
  (fst r = false → snd r = self) ∧
  (fst r = true →
   ∃ idx v,
     sold_vehicles self !! idx = Some (Some v) ∧
     _normalize_license_plate (SoldVehicle.license_plate v)
     = _normalize_license_plate p ∧
     sold_vehicles (snd r) = <[idx := None]> (sold_vehicles self) ∧
     sold_vehicles (snd r) !! idx = Some None ∧
     length (sold_vehicles (snd r)) = length (sold_vehicles self) ∧
     ∀ j, j ≠ idx → sold_vehicles (snd r) !! j = sold_vehicles self !! j).
Proof.
  simpl.
  destruct (complete_vehicle_handover_cases self p)
    as [[-> Hno]|(idx & v & Hi & Heq & _ & ->)]; simpl.
  - repeat split; try done.
  - repeat split; try done.
    + intros Hno. by destruct (Hno idx v Hi).
    + intros _. exists idx, v. repeat split; try done.
      * apply list_lookup_insert_eq. by eapply lookup_lt_Some.
      * by rewrite length_insert.
      * intros j Hne. by rewrite list_lookup_insert_ne.
Qed.

(** C9: with a preferred slot that is available and a plate that is not a
    duplicate, [add_vehicle_manually] writes the vehicle at that slot; with
    a preferred slot that is occupied or out of range it does what
    [assign_vehicle] does; and without a vehicle id the stored assignment
    carries the id ["MANUAL-"] followed by the license plate. *)
Theorem add_vehicle_manually_preferred self now p price v k d :
  let vid := default ("MANUAL-" +:+ p) v in
  (is_slot_available self k = true →
   is_duplicate_license_plate self p = false →
   add_vehicle_manually self now p price v (Some k) d
   = (Some k, place self now k vid p price d) ∧
   slots (place self now k vid p price d) !! Z.to_nat k
   = Some (Some (new_assignment now k vid p price d))) ∧
  (is_slot_available self k = false →
   add_vehicle_manually self now p price v (Some k) d
   = assign_vehicle self now vid p price d) ∧
  (∀ pref i,
     fst (add_vehicle_manually self now p price None pref d) = Some i →
     ∃ a,
       slots (snd (add_vehicle_manually self now p price None pref d))
         !! Z.to_nat i = Some (Some a) ∧
       SlotAssignment.vehicle_id a = "MANUAL-" +:+ p ∧
       SlotAssignment.license_plate a = p ∧
       SlotAssignment.slot_number a = i).
Proof.
  simpl. split; [|split].
  - intros Hav Hdup. unfold add_vehicle_manually. rewrite Hdup, Hav.
    rewrite assign_vehicle_to_slot_available by done.
    split; [by destruct v|]. simpl.
    apply is_slot_available_true in Hav as [_ Hk].
    apply list_lookup_insert_eq. by eapply lookup_lt_Some.
  - intros Hav. unfold add_vehicle_manually. rewrite Hav.
    destruct (is_duplicate_license_plate self p) eqn:Hdup; [|by destruct v].
    unfold assign_vehicle. by rewrite Hdup.
  - intros pref i.
    destruct (add_vehicle_manually_cases self now p price None pref d)
      as [->|(k' & Hav & _ & ->)]; [done|]. simpl. intros [= ->].
    apply is_slot_available_true in Hav as [_ Hk].
    eexists. split.
    + apply list_lookup_insert_eq. by eapply lookup_lt_Some.
    + done.
Qed.

End Handover.

(** ** Capacity of the handover pool *)

Section Capacity.

Context {Strategy : Type} `{!SlotAssignmentStrategy Strategy}.

Implicit Types (self : KeySlotManager Strategy) (p : string).

Lemma omap_id_length_le {A} (l : list (option A)) :
  (length (omap id l) ≤ length l)%nat.
Proof. induction l as [|[x|] l IH]; cbn in *; lia. Qed.

Lemma find_free_Some {A} (l : list (option A)) :
  (length (omap id l) < length l)%nat →
  ∃ idx, list_find (λ sold, sold = None) l = Some (idx, None).
Proof.
  intros Hlt.
  destruct (list_find (λ sold, sold = None) l) as [[idx o]|] eqn:Hf.
  - apply list_find_Some in Hf as Hf'. destruct Hf' as (_ & -> & _). eauto.
  - exfalso. rewrite list_find_None in Hf.
    induction l as [|[x|] l IH]; cbn in *; [lia| |].
    + apply Forall_cons in Hf as [_ Hf]. apply IH; [lia|done].
    + by apply Forall_cons in Hf as [? _].
Qed.

Lemma find_free_None {A} (l : list (option A)) :
  length (omap id l) = length l →
  list_find (λ sold, sold = None) l = None.
Proof.
  intros Hlen. apply list_find_None.
  induction l as [|[x|] l IH]; cbn in *; [done| |].
  - constructor; [done|]. apply IH. lia.
  - pose proof (omap_id_length_le l). lia.
Qed.

(** A sale of a vehicle of the table succeeds while the pool is not full. *)
Lemma do_sale_succeeds self c :
  inv self →
  is_Some (get_vehicle_by_license_plate self (sale_plate c)) →
  (get_sold_vehicles_count self < length (sold_vehicles self))%nat →
  let self' := snd (do_sale self c) in
  fst (do_sale self c) = true ∧
  inv self' ∧
  get_sold_vehicles_count self' = S (get_sold_vehicles_count self) ∧
  length (sold_vehicles self') = length (sold_vehicles self) ∧
  ∀ q, is_Some (get_vehicle_by_license_plate self q) →
       _normalize_license_plate q ≠ _normalize_license_plate (sale_plate c) →
       is_Some (get_vehicle_by_license_plate self' q).
Proof.
  intros Hinv [a Hg] Hlt. pose proof Hinv as (Hwf & Hnum & Hnd).
  destruct (find_free_Some _ Hlt) as [idx Hf].
  unfold do_sale. rewrite mark_vehicle_as_sold_unfold, Hg, Hf. simpl.
  apply get_vehicle_by_license_plate_Some in Hg as [[i Hi] Heq].
  apply list_find_Some in Hf as (Hidx & _ & _).
  assert (Hinv' : inv (move_to_pool self (sale_now c) a idx (sale_price c)
                         (sale_buyer c))) by (by apply (inv_move _ _ i)).
  repeat split; try apply Hinv'.
  - unfold get_sold_vehicles_count, get_sold_vehicles, move_to_pool. simpl.
    by rewrite (omap_id_insert_free _ _ _ Hidx).
  - unfold move_to_pool. simpl. by rewrite length_insert.
  - intros q [a' Hq] Hne.
    apply get_vehicle_by_license_plate_Some in Hq as [[j Hj] Heq'].
    exists a'. apply (get_vehicle_by_license_plate_held _ _ j); [done| |done].
    unfold move_to_pool, slots_set. simpl.
    rewrite (Hnum i a Hi), (proj2 (Z.leb_le 0 _)), Nat2Z.id by lia.
    rewrite list_lookup_insert_ne; [done|]. intros ->. congruence.
Qed.

(** A sale fails when every pool index is taken. *)
Lemma do_sale_pool_full self c :
  get_sold_vehicles_count self = length (sold_vehicles self) →
  do_sale self c = (false, self).
Proof.
  intros Hfull. unfold do_sale. rewrite mark_vehicle_as_sold_unfold.
  rewrite (find_free_None _ Hfull).
  by destruct (get_vehicle_by_license_plate self (sale_plate c)).
Qed.

Lemma mark_all_between_app self calls1 calls2 :
  mark_all_between self (calls1 ++ calls2)
  = (fst (mark_all_between self calls1)
       ++ fst (mark_all_between (snd (mark_all_between self calls1)) calls2),
     snd (mark_all_between (snd (mark_all_between self calls1)) calls2)).
Proof.
  revert self. induction calls1 as [|[completed c] calls1 IH]; intros self.
  - simpl. by destruct (mark_all_between self calls2).
  - simpl. destruct (do_sale (complete_all self completed) c) as [r self'].
    rewrite IH. by destruct (mark_all_between self' calls1).
Qed.

Lemma mark_all_between_cons self c sales :
  mark_all_between self (without_completions (c :: sales))
  = (fst (do_sale self c)
       :: fst (mark_all_between (snd (do_sale self c))
                 (without_completions sales)),
     snd (mark_all_between (snd (do_sale self c))
            (without_completions sales))).
Proof.
  unfold without_completions. rewrite fmap_cons. simpl.
  change (complete_all self []) with self.
  destruct (do_sale self c) as [r self']. simpl.
  by destruct (mark_all_between self' _).
Qed.

Lemma mark_all_between_succeeds sales self :
  inv self →
  distinct_plates (sale_plate <$> sales) →
  all_in_table self (sale_plate <$> sales) →
  (get_sold_vehicles_count self + length sales
   ≤ length (sold_vehicles self))%nat →
  let r := mark_all_between self (without_completions sales) in
  fst r = replicate (length sales) true ∧
  inv (snd r) ∧
  get_sold_vehicles_count (snd r)
  = (get_sold_vehicles_count self + length sales)%nat ∧
  length (sold_vehicles (snd r)) = length (sold_vehicles self) ∧
  ∀ q, is_Some (get_vehicle_by_license_plate self q) →
       _normalize_license_plate q
       ∉ _normalize_license_plate <$> (sale_plate <$> sales) →
       is_Some (get_vehicle_by_license_plate (snd r) q).
Proof.
  revert self. induction sales as [|c sales IH]; intros self Hinv Hd Hin Hcap.
  - cbn. split; [done|]. split; [done|]. split; [lia|]. done.
  - rewrite mark_all_between_cons.
    unfold distinct_plates in Hd. rewrite !fmap_cons in Hd, Hin.
    rewrite length_cons in Hcap.
    apply NoDup_cons in Hd as [Hc Hd].
    destruct (do_sale_succeeds self c Hinv)
      as (Hr & Hinv' & Hcnt & Hlen & Hkeep).
    { apply Hin. by left. }
    { lia. }
    destruct (IH (snd (do_sale self c)) Hinv' Hd)
      as (Hrs & Hinv'' & Hcnt' & Hlen' & Hkeep').
    { intros q Hq. apply Hkeep; [apply Hin; by right|].
      intros Heq. apply Hc. rewrite <- Heq.
      apply list_elem_of_fmap. eauto. }
    { lia. }
    cbn [fst snd]. split; [by rewrite Hr, Hrs|]. split; [done|].
    split; [rewrite length_cons; lia|]. split; [congruence|].
    intros q Hq Hnot. rewrite fmap_cons in Hnot. apply Hkeep'.
    + apply Hkeep; [done|]. intros Heq. apply Hnot. rewrite Heq. by left.
    + intros Hq'. apply Hnot. by right.
Qed.

(** C8, as the code has it: from an empty pool, sales of eleven vehicles of
    the table with different plates and no handover completed in between
    succeed ten times, and the eleventh fails because the pool is full — the
    vehicle is still in the table, no pool index is free, and nothing
    changes. *)
Theorem eleventh_sale_fails self sales last :
  inv self →
  pool_empty self →
  length sales = 10%nat →
  distinct_plates (sale_plate <$> sales ++ [last]) →
  all_in_table self (sale_plate <$> sales ++ [last]) →
  let before := snd (mark_all_between self (without_completions sales)) in
  fst (mark_all_between self (without_completions (sales ++ [last])))
  = replicate 10 true ++ [false] ∧
  is_Some (get_vehicle_by_license_plate before (sale_plate last)) ∧
  (∀ idx, sold_vehicles before !! idx ≠ Some None) ∧
  do_sale before last = (false, before).
Proof.
  intros Hinv Hempty Hlen Hd Hin before.
  unfold distinct_plates in Hd. rewrite !fmap_app in Hd. simpl in Hd.
  apply NoDup_app in Hd as (Hd & Hlast & _).
  assert (Hcount : get_sold_vehicles_count self = 0%nat).
  { unfold get_sold_vehicles_count, get_sold_vehicles.
    by rewrite Hempty. }
  assert (Hsize : length (sold_vehicles self) = 10%nat) by (by rewrite Hempty).
  destruct (mark_all_between_succeeds sales self Hinv Hd)
    as (Hrs & Hinv' & Hcnt & Hsz & Hkeep).
  { intros q Hq. apply Hin. rewrite fmap_app. apply elem_of_app. by left. }
  { lia. }
  fold before in Hrs, Hinv', Hcnt, Hsz, Hkeep.
  assert (Hfull : get_sold_vehicles_count before
                  = length (sold_vehicles before)) by lia.
  assert (Hfail : do_sale before last = (false, before))
    by (by apply do_sale_pool_full).
  repeat split.
  - unfold without_completions. rewrite fmap_app, mark_all_between_app.
    simpl. fold (without_completions sales). fold before.
    rewrite Hrs, Hlen, Hfail. done.
  - apply Hkeep.
    + apply Hin. rewrite fmap_app. apply elem_of_app. right. by left.
    + intros Hq. apply (Hlast _ Hq). by left.
  - intros idx Hidx.
    pose proof (find_free_None _ Hfull) as Hnone.
    rewrite list_find_None, Forall_forall in Hnone.
    by apply (Hnone None (list_elem_of_lookup_2 _ _ _ Hidx)).
  - done.
Qed.

End Capacity.

(** ** The properties on the stocked manager *)

Lemma stocked_inv : inv stocked.
Proof. apply run_inv, inv_init. Qed.

Lemma high_tier_filled_inv : inv high_tier_filled.
Proof. apply run_inv, inv_init. Qed.

Lemma stocked_pool_empty : pool_empty stocked.
Proof. vm_compute. reflexivity. Qed.

Lemma stock_plates_distinct : distinct_plates stock_plates.
Proof. apply (bool_decide_unpack _). vm_compute. exact I. Qed.

Lemma stock_plates_in_table : all_in_table stocked stock_plates.
Proof.
  unfold all_in_table. apply Forall_forall.
  apply (bool_decide_unpack _). vm_compute. exact I.
Qed.

(** The scenario of the specification: the first two vehicles at 3500 go to
    slots 0 and 1. *)
Example stocked_first_slots :
  (λ a, (SlotAssignment.license_plate a, SlotAssignment.slot_number a))
    <$> take 2 (get_all_assignments stocked)
  = [("KA-001", 0); ("KA-002", 1)].
Proof. vm_compute. reflexivity. Qed.

(** With the slots 0 to 50 taken, the next vehicle at 3500 goes to 199. *)
Example high_tier_overflow_slot :
  fst (assign_vehicle high_tier_filled 0 "V52" "EF-789-G" f3500 None)
  = Some 199.
Proof. vm_compute. reflexivity. Qed.

(** After the sale of the vehicle of slot 0 the pool label is v1 and the
    next vehicle at 3500 goes to slot 0 again. *)
Example sold_slot_reused :
  let self := snd (do_sale high_tier_filled (sale_of "ht-0")) in
  SoldVehicle.sold_slot <$> get_sold_vehicles self = ["v1"] ∧
  fst (assign_vehicle self 2 "V53" "GH-012-I" f3500 None) = Some 0.
Proof. vm_compute. split; reflexivity. Qed.

Lemma one_entry_per_plate_witness :
  NoDup (normalized_plates stocked) ∧
  _normalize_license_plate "kb 100" ∉ normalized_plates stocked.
Proof.
  pose proof (one_entry_per_plate 200 (Some default_strategy)
                ((λ p, Assign 0 ("V-" +:+ p) p f3500 None) <$> stock_plates))
    as H.
  cbv zeta in H. fold stocked in H. destruct H as (H1 & H2 & _).
  split; [exact H1|].
  apply (H2 5 "V-100" "kb 100" f1500 None).
  vm_compute. eauto.
Defined.

Lemma rejected_leaves_state_witness :
  snd (assign_vehicle stocked 5 "V" "ka 001" f1500 None) = stocked ∧
  snd (mark_vehicle_as_sold stocked 5 "ZZ-999" None None) = stocked.
Proof.
  destruct (rejected_leaves_state stocked 5 "V" "ka 001" f1500 None None None)
    as (H1 & _).
  destruct (rejected_leaves_state stocked 5 "V" "ZZ-999" f1500 None None None)
    as (_ & H2).
  split; [apply H1|apply H2]; by vm_compute.
Defined.

Lemma assign_vehicle_overflow_witness :
  ∃ k, assign_vehicle high_tier_filled 0 "V52" "EF-789-G" f3500 None
       = (Some k, place high_tier_filled 0 k "V52" "EF-789-G" f3500 None) ∧
       get_highest_available_slot high_tier_filled = Some k.
Proof.
  destruct (assign_vehicle_overflow high_tier_filled 0 "V52" "EF-789-G" f3500
              None default_strategy 0 50) as (k & H1 & H2 & _).
  - reflexivity.
  - reflexivity.
  - vm_compute. reflexivity.
  - assert (Hall : Forall (λ j, is_slot_available high_tier_filled j = false)
                     (seqZ 0 51)).
    { apply (bool_decide_unpack _). vm_compute. exact I. }
    rewrite Forall_forall in Hall. intros j Hj. apply Hall.
    apply elem_of_seqZ. lia.
  - exists 199. split; [|by vm_compute].
    replace (total_slots high_tier_filled) with 200 by (by vm_compute). lia.
  - exists k. by split.
Defined.

Lemma assign_vehicle_full_iff_witness :
  is_Some (fst (assign_vehicle stocked 5 "V-100" "KB-100" f1500 None)).
Proof.
  destruct (assign_vehicle_full_iff stocked 5 "V-100" "KB-100" f1500 None)
    as (_ & H).
  - by vm_compute.
  - apply H. exists 199. split; [|by vm_compute].
    replace (total_slots stocked) with 200 by (by vm_compute). lia.
Defined.

Lemma mark_vehicle_as_sold_moves_witness :
  fst (mark_vehicle_as_sold stocked 1 "ka 001" None None) = true ∧
  get_vehicle_by_license_plate
    (snd (mark_vehicle_as_sold stocked 1 "ka 001" None None)) "ka 001" = None.
Proof.
  destruct (mark_vehicle_as_sold_moves stocked 1 "ka 001" None None 0
              (new_assignment 0 0 "V-KA-001" "KA-001" f3500 None))
    as (idx & H).
  - apply stocked_inv.
  - vm_compute. reflexivity.
  - vm_compute. reflexivity.
  - exists 0%nat. vm_compute. reflexivity.
  - cbv zeta in H. split; apply H.
Defined.

Lemma add_vehicle_manually_preferred_witness :
  add_vehicle_manually stocked 5 "KB-100" f1500 None (Some 150) None
  = (Some 150, place stocked 5 150 "MANUAL-KB-100" "KB-100" f1500 None).
Proof.
  pose proof (add_vehicle_manually_preferred stocked 5 "KB-100" f1500 None
                150 None) as H.
  cbv zeta in H. destruct H as (H & _).
  apply H; by vm_compute.
Defined.

Lemma complete_vehicle_handover_frame_witness :
  let self := snd (do_sale stocked (sale_of "KA-001")) in
  slots (snd (complete_vehicle_handover self "ka-001")) = slots self ∧
  ∃ idx v,
    sold_vehicles self !! idx = Some (Some v) ∧
    sold_vehicles (snd (complete_vehicle_handover self "ka-001"))
    = <[idx := None]> (sold_vehicles self).
Proof.
  intros self.
  destruct (complete_vehicle_handover_frame self "ka-001")
    as (Hs & _ & _ & _ & _ & Ht).
  split; [exact Hs|].
  destruct Ht as (idx & v & H1 & _ & H2 & _).
  - vm_compute. reflexivity.
  - exists idx, v. by split.
Defined.

(** C8 as stated fails: a handover completed before the eleventh sale frees
    a pool index, and the eleventh sale succeeds. *)
Lemma eleventh_sale_after_handover :
  ¬ eleventh_fails_regardless stocked sales_with_handover.
Proof.
  intros Hclaim.
  assert (Hr : fst (mark_all_between stocked sales_with_handover)
               = replicate 10 true ++ [false]).
  { apply Hclaim.
    - apply stocked_pool_empty.
    - reflexivity.
    - apply stock_plates_distinct.
    - apply stock_plates_in_table. }
  vm_compute in Hr. discriminate.
Qed.

Lemma eleventh_sale_fails_witness :
  fst (mark_all_between stocked
         (without_completions
            ((sale_of <$> take 10 stock_plates) ++ [sale_of "KA-011"])))
  = replicate 10 true ++ [false].
Proof.
  pose proof (eleventh_sale_fails stocked (sale_of <$> take 10 stock_plates)
                (sale_of "KA-011")) as H.
  cbv zeta in H. apply H.
  - apply stocked_inv.
  - apply stocked_pool_empty.
  - reflexivity.
  - apply (bool_decide_unpack _). vm_compute. exact I.
  - unfold all_in_table. apply Forall_forall.
    apply (bool_decide_unpack _). vm_compute. exact I.
Defined.

Lemma assign_vehicle_refines_spec_witness :
  assign_vehicle stocked 5 "V-100" "KB-100" f1500 None
  = (returned_slot (fst (spec_assign stocked 5 "V-100" "KB-100" f1500 None)),
     snd (spec_assign stocked 5 "V-100" "KB-100" f1500 None)) ∧
  fst (spec_assign stocked 5 "V-100" "KB-100" f1500 None) ≠ inl TableFull.
Proof.
  destruct (assign_vehicle_refines_spec stocked 5 "V-100" "KB-100" f1500 None)
    as (H1 & _ & _ & _ & H2).
  split; [exact H1|]. intros Hfull. apply H2 in Hfull as [_ Hall].
  specialize (Hall 199). vm_compute in Hall. discriminate.
Defined.

(** ** Normalization of license plates *)

















(** ** The order on prices *)

Lemma pos_compare_cont_spec (x y : positive) :
  CompareSpec (x = y) (x < y)%positive (y < x)%positive
    (PosDef.Pos.compare_cont Eq x y).
Proof. exact (Pos.compare_spec x y). Qed.

Lemma SFleb_trans (x y z : float) :
  SFleb x y = true → SFleb y z = true → SFleb x z = true.
Proof.
  unfold SFleb.
  destruct x as [sx|sx| |sx mx ex], y as [sy|sy| |sy my ey],
    z as [sz|sz| |sz mz ez];
    cbn -[Pos.compare_cont PosDef.Pos.compare_cont Z.compare]; try done;
    try (destruct sx; done); try (destruct sy; done); try (destruct sz; done);
    try (destruct sx, sy; done); try (destruct sy, sz; done);
    try (destruct sx, sz; done); try (destruct sx, sy, sz; done).
  destruct sx, sy, sz; try done;
    destruct (Z.compare_spec ex ey), (Z.compare_spec ey ez),
      (Z.compare_spec ex ez); try done; try lia;
    destruct (pos_compare_cont_spec mx my), (pos_compare_cont_spec my mz),
      (pos_compare_cont_spec mx mz); simpl; try done; try lia.
Qed.

Lemma float_ge_trans (x y z : float) :
  float_ge x y = true → float_ge y z = true → float_ge x z = true.
Proof. unfold float_ge. intros H1 H2. by apply (SFleb_trans z y x). Qed.

(** ** Tiers of a configured strategy *)

(** X3: for any thresholds and ranges, a price at least as high as another
    is never put in a lower tier: if the lower price reaches the high tier so
    does the higher one, and if it reaches the medium tier the higher one
    gets the medium or the high range; with the default strategy the range
    of the higher price starts no later. *)
Theorem get_slot_range_monotone (s : PriceBasedSlotStrategy) (p q : float) :
  float_ge q p = true →
  (float_ge p (high_price_threshold s) = true →
     get_slot_range s q = high_price_slots s) ∧
  (float_ge p (medium_price_threshold s) = true →
     get_slot_range s q = high_price_slots s ∨
     get_slot_range s q = medium_price_slots s) ∧
  fst (get_slot_range default_strategy q)
  ≤ fst (get_slot_range default_strategy p).
Proof.
  intros Hqp. simpl. unfold price_based_get_slot_range.
  split; [|split].
  - intros Hp. by rewrite (float_ge_trans q p _ Hqp Hp).
  - intros Hp. rewrite (float_ge_trans q p _ Hqp Hp).
    destruct (float_ge q (high_price_threshold s)); auto.
  - simpl.
    destruct (float_ge p f3000) eqn:Hp3.
    { by rewrite (float_ge_trans q p _ Hqp Hp3). }
    destruct (float_ge p f1500) eqn:Hp1.
    { rewrite (float_ge_trans q p _ Hqp Hp1).
      by destruct (float_ge q f3000). }
    by destruct (float_ge q f3000), (float_ge q f1500).
Qed.

Lemma get_slot_range_monotone_witness :
  get_slot_range default_strategy f3500 = (0, 50) ∧
  fst (get_slot_range default_strategy f3500)
  ≤ fst (get_slot_range default_strategy f1500).
Proof.
  destruct (get_slot_range_monotone default_strategy f3000 f3500)
    as (H1 & _ & _); [reflexivity|].
  destruct (get_slot_range_monotone default_strategy f1500 f3500)
    as (_ & _ & H2); [reflexivity|].
  split; [apply H1; reflexivity|exact H2].
Defined.

(** X4: a price that is not a number gets the low range, whatever the
    thresholds; and when the medium threshold is not below the high one the
    medium range is never used: every price gets the high or the low
    range. *)
Theorem get_slot_range_edges (s : PriceBasedSlotStrategy) (p : float) :
  get_slot_range s S754_nan = low_price_slots s ∧
  (float_ge (medium_price_threshold s) (high_price_threshold s) = true →
   get_slot_range s p = high_price_slots s ∨
   get_slot_range s p = low_price_slots s).
Proof.
  simpl. unfold price_based_get_slot_range. split.
  - unfold float_ge, SFleb.
    by destruct (high_price_threshold s), (medium_price_threshold s).
  - intros Hmh.
    destruct (float_ge p (high_price_threshold s)) eqn:Hh; [by left|].
    destruct (float_ge p (medium_price_threshold s)) eqn:Hm; [|by right].
    by rewrite (float_ge_trans p _ _ Hm Hmh) in Hh.
Qed.

Lemma get_slot_range_edges_witness :
  get_slot_range
    {| high_price_threshold := f1500; medium_price_threshold := f3000;
       high_price_slots := (0, 50); medium_price_slots := (50, 100);
       low_price_slots := (100, 199) |} f3500 ≠ (50, 100).
Proof.
  destruct (get_slot_range_edges
    {| high_price_threshold := f1500; medium_price_threshold := f3000;
       high_price_slots := (0, 50); medium_price_slots := (50, 100);
       low_price_slots := (100, 199) |} f3500) as [_ H].
  destruct H as [H|H]; [reflexivity|..]; rewrite H; discriminate.
Defined.

(** ** The slot chosen by the manager *)

Section Chosen.

Context {Strategy : Type} `{!SlotAssignmentStrategy Strategy}.

Implicit Types (self : KeySlotManager Strategy) (k : Z) (p : string).

(** The value returned by [assign_vehicle] for a plate that is not a
    duplicate. *)
Lemma assign_vehicle_chosen self now v p price d :
  is_duplicate_license_plate self p = false →
  fst (assign_vehicle self now v p price d)
  = match assignment_strategy self with
    | None => get_available_slot_in_range self 0 (total_slots self - 1)
    | Some strategy =>
        match get_available_slot_in_range self
                (fst (get_slot_range strategy price))
                (snd (get_slot_range strategy price)) with
        | Some k => Some k
        | None => get_highest_available_slot self
        end
    end.
Proof.
  intros Hdup. unfold assign_vehicle. rewrite Hdup.
  destruct (assignment_strategy self) as [strategy|].
  - destruct (get_slot_range strategy price) as [lo hi]. simpl.
    destruct (get_available_slot_in_range self lo hi) as [k|] eqn:Hr.
    + apply get_available_slot_in_range_Some in Hr as (_ & Hav & _).
      by rewrite assign_vehicle_to_slot_available.
    + rewrite assign_overflow_highest.
      by destruct (get_highest_available_slot self).
  - rewrite assign_first_available_find. unfold get_available_slot_in_range.
    replace (Z.min (total_slots self - 1 + 1) (total_slots self))
      with (total_slots self) by lia.
    by destruct (list_find _ _) as [[? ?]|].
Qed.

Lemma no_slot_available self :
  get_highest_available_slot self = None ↔
  ∀ j, 0 ≤ j < total_slots self → is_slot_available self j = false.
Proof.
  rewrite get_highest_available_slot_None. split; [by auto|].
  intros Hall j. destruct (is_slot_available self j) eqn:Hav; [|done].
  pose proof Hav as [Hj _]%is_slot_available_true. by rewrite Hall in Hav.
Qed.

Lemma assign_vehicle_None self now v p price d :
  fst (assign_vehicle self now v p price d) = None ↔
  is_duplicate_license_plate self p = true ∨
  ∀ j, 0 ≤ j < total_slots self → is_slot_available self j = false.
Proof.
  destruct (is_duplicate_license_plate self p) eqn:Hdup.
  { unfold assign_vehicle. rewrite Hdup. simpl. split; auto. }
  rewrite assign_vehicle_chosen by done. rewrite <- no_slot_available.
  split; [|intros [|Hnone]; [done|]].
  - intros Hr. right. destruct (assignment_strategy self) as [strategy|].
    + by destruct (get_available_slot_in_range self _ _).
    + rewrite get_available_slot_in_range_None in Hr.
      apply no_slot_available. intros j Hj. apply Hr. lia.
  - rewrite get_highest_available_slot_None in Hnone.
    destruct (assignment_strategy self) as [strategy|].
    + destruct (get_available_slot_in_range self _ _) as [k|] eqn:Hr.
      * apply get_available_slot_in_range_Some in Hr as (_ & Hav & _).
        by rewrite Hnone in Hav.
      * by apply get_highest_available_slot_None.
    + apply get_available_slot_in_range_None. auto.
Qed.

(** X5: [assign_vehicle_to_slot] returns [True] exactly when the slot is
    available and, if the duplicate check is on, the plate is not held; it
    then writes the assignment at that slot; on [False] nothing changes; and
    with the duplicate check on it keeps the invariant. *)
Theorem assign_vehicle_to_slot_spec self now k v p price d c :
  let r := assign_vehicle_to_slot self now k v p price d c in
  (fst r = true ↔
   is_slot_available self k = true ∧
   (c = false ∨ is_duplicate_license_plate self p = false)) ∧
  (fst r = false → snd r = self) ∧
  (fst r = true → snd r = place self now k v p price d) ∧
  (inv self → c = true → inv (snd r)).
Proof.
  simpl. unfold assign_vehicle_to_slot.
  destruct (is_slot_available self k) eqn:Hav; simpl.
  2: { split; [split; [done|by intros [? _]]|]. by repeat (split; [done|]). }
  pose proof Hav as [[H0 _] _]%is_slot_available_true.
  unfold slots_set. rewrite (proj2 (Z.leb_le 0 k)) by lia.
  destruct c; simpl.
  - destruct (is_duplicate_license_plate self p) eqn:Hdup; simpl.
    + split; [split; [done|by intros [_ [|]]]|].
      by repeat (split; [done|]).
    + split; [split; auto|]. split; [done|]. split; [done|].
      intros Hinv _. by apply inv_place.
  - split; [split; auto|]. by repeat (split; [done|]).
Qed.

(** X6: with a strategy whose range for the price holds an available
    index, a vehicle that is not a duplicate gets the lowest available index
    of that range, which is a slot of the table. *)
Theorem assign_vehicle_in_range self now v p price d strategy lo hi :
  assignment_strategy self = Some strategy →
  get_slot_range strategy price = (lo, hi) →
  is_duplicate_license_plate self p = false →
  (∃ j, lo ≤ j ≤ hi ∧ is_slot_available self j = true) →
  ∃ k, assign_vehicle self now v p price d
       = (Some k, place self now k v p price d) ∧
       lo ≤ k ≤ hi ∧ 0 ≤ k < total_slots self ∧
       is_slot_available self k = true ∧
       ∀ j, lo ≤ j < k → is_slot_available self j = false.
Proof.
  intros Hs Hr Hdup (j & Hj & Hav).
  destruct (get_available_slot_in_range self lo hi) as [k|] eqn:Hg.
  2: { rewrite get_available_slot_in_range_None in Hg.
       by rewrite Hg in Hav. }
  exists k. pose proof Hg as (Hk & Hk' & Hmin)%get_available_slot_in_range_Some.
  pose proof Hk' as [? _]%is_slot_available_true.
  split; [|done].
  unfold assign_vehicle. rewrite Hdup, Hs, Hr, Hg.
  by rewrite assign_vehicle_to_slot_available.
Qed.

(** X7: [add_vehicle_manually] returns [None] exactly when the plate is a
    duplicate or no slot of the table is free, and then changes nothing; a
    returned slot is a slot of the table that was available; the invariant
    is kept. *)
Theorem add_vehicle_manually_outcome self now p price v pref d :
  let r := add_vehicle_manually self now p price v pref d in
  (fst r = None ↔
   is_duplicate_license_plate self p = true ∨
   ∀ j, 0 ≤ j < total_slots self → is_slot_available self j = false) ∧
  (fst r = None → snd r = self) ∧
  (∀ k, fst r = Some k →
        0 ≤ k < total_slots self ∧ is_slot_available self k = true) ∧
  (inv self → inv (snd r)).
Proof.
  simpl. split; [|split; [|split]].
  - unfold add_vehicle_manually.
    destruct (is_duplicate_license_plate self p) eqn:Hdup.
    { simpl. split; auto. }
    assert (Hauto : ∀ w,
      fst (assign_vehicle self now w p price d) = None ↔
      false = true ∨
      ∀ j, 0 ≤ j < total_slots self → is_slot_available self j = false).
    { intros w. rewrite assign_vehicle_None, Hdup. done. }
    destruct pref as [k|]; [|apply Hauto].
    destruct (is_slot_available self k) eqn:Hav; [|apply Hauto].
    rewrite assign_vehicle_to_slot_available by done. simpl.
    split; [done|]. intros [|Hall]; [done|].
    pose proof Hav as [? _]%is_slot_available_true. by rewrite Hall in Hav.
  - destruct (add_vehicle_manually_cases self now p price v pref d)
      as [->|(k & _ & _ & ->)]; done.
  - intros k.
    destruct (add_vehicle_manually_cases self now p price v pref d)
      as [->|(k' & Hav & _ & ->)]; [done|]. simpl. intros [= <-].
    by pose proof Hav as [? _]%is_slot_available_true.
  - intros Hinv.
    destruct (add_vehicle_manually_cases self now p price v pref d)
      as [->|(k' & Hav & Hdup & ->)]; [done|]. by apply inv_place.
Qed.

End Chosen.

(** ** Release, lookup and the life of a plate *)

Section Lifecycle.

Context {Strategy : Type} `{!SlotAssignmentStrategy Strategy}.

Implicit Types (self : KeySlotManager Strategy) (k : Z) (p q : string).

Lemma is_slot_available_place self now k v p price d j :
  is_slot_available self k = true →
  is_slot_available (place self now k v p price d) j
  = if decide (j = k) then false else is_slot_available self j.
Proof.
  intros [Hk Hfree]%is_slot_available_true.
  destruct (decide (j = k)) as [->|Hne].
  - apply is_slot_available_false. intros [_ Hl]. simpl in Hl.
    rewrite list_lookup_insert_eq in Hl by (by eapply lookup_lt_Some). done.
  - destruct (is_slot_available self j) eqn:Hav.
    + apply is_slot_available_true in Hav as [Hj Hl].
      apply is_slot_available_true. split; [done|]. simpl.
      rewrite list_lookup_insert_ne by lia. done.
    + apply is_slot_available_false. intros [Hj Hl].
      apply is_slot_available_false in Hav. apply Hav. split; [done|].
      simpl in Hl. by rewrite list_lookup_insert_ne in Hl by lia.
Qed.

Lemma get_slot_assignment_lookup self k :
  0 ≤ k < total_slots self →
  get_slot_assignment self k = mjoin (slots self !! Z.to_nat k).
Proof.
  intros Hk. unfold get_slot_assignment, slots_get.
  rewrite (proj2 (Z.leb_le 0 k)) by lia.
  rewrite (proj2 (Z.ltb_lt k (total_slots self))) by lia. done.
Qed.

(** X8: [release_slot] returns [True] exactly for an occupied slot of the
    table; it then clears that slot and nothing else, the slot is available
    and a second release of it returns [False]; on [False] nothing
    changes. *)
Theorem release_slot_spec self k :
  let r := release_slot self k in
  (fst r = true ↔
   0 ≤ k < total_slots self ∧
   ∃ a, slots self !! Z.to_nat k = Some (Some a)) ∧
  (fst r = false → snd r = self) ∧
  (fst r = true →
   slots (snd r) = <[Z.to_nat k := None]> (slots self) ∧
   sold_vehicles (snd r) = sold_vehicles self ∧
   is_slot_available (snd r) k = true ∧
   fst (release_slot (snd r) k) = false).
Proof.
  simpl.
  assert (Hiff : fst (release_slot self k) = true ↔
    0 ≤ k < total_slots self ∧
    ∃ a, slots self !! Z.to_nat k = Some (Some a)).
  { unfold release_slot, slots_get, slots_set.
    destruct (0 <=? k) eqn:H0; simpl.
    2: { apply Z.leb_gt in H0. split; [done|lia]. }
    destruct (k <? total_slots self) eqn:H1; simpl.
    2: { apply Z.ltb_ge in H1. split; [done|lia]. }
    apply Z.leb_le in H0. apply Z.ltb_lt in H1.
    destruct (slots self !! Z.to_nat k) as [[a|]|]; simpl.
    - split; eauto.
    - split; [done|by intros [_ [? ?]]].
    - split; [done|by intros [_ [? ?]]]. }
  split; [done|].
  destruct (release_slot_cases self k) as [Heq|(a & Hk & Heq)].
  { rewrite Heq. simpl. done. }
  pose proof (proj1 Hiff) as Hrange. rewrite Heq in Hrange |- *. simpl in *.
  destruct (Hrange eq_refl) as [Hr _].
  split; [done|]. intros _.
  assert (Hnew : <[Z.to_nat k := None]> (slots self) !! Z.to_nat k
                 = Some None).
  { apply list_lookup_insert_eq. by eapply lookup_lt_Some. }
  split; [done|]. split; [done|]. split.
  - apply is_slot_available_true. simpl. split; [lia|done].
  - destruct (release_slot_cases
                (with_slots self (<[Z.to_nat k := None]> (slots self))) k)
      as [->|(a' & Hk' & _)]; [done|].
    simpl in Hk'. congruence.
Qed.

(** X9: under the invariant [release_by_license_plate] returns [True]
    exactly when the plate is in the slot table; it then clears the slot of
    that vehicle and nothing else, after which the plate is neither found
    nor a duplicate; on [False] nothing changes. *)
Theorem release_by_license_plate_spec self p :
  inv self →
  let r := release_by_license_plate self p in
  (fst r = true ↔ is_Some (get_vehicle_by_license_plate self p)) ∧
  (fst r = false → snd r = self) ∧
  (fst r = true →
   inv (snd r) ∧
   get_vehicle_by_license_plate (snd r) p = None ∧
   is_duplicate_license_plate (snd r) p = false ∧
   sold_vehicles (snd r) = sold_vehicles self ∧
   ∃ (i : nat) a,
     slots self !! i = Some (Some a) ∧
     _normalize_license_plate (SlotAssignment.license_plate a)
     = _normalize_license_plate p ∧
     slots (snd r) = <[i := None]> (slots self)).
Proof.
  intros Hinv. pose proof Hinv as (Hwf & Hnum & Hnd). simpl.
  unfold release_by_license_plate.
  destruct (get_vehicle_by_license_plate self p) as [a|] eqn:Hg.
  2: { split; [split; [done|by intros [? ?]]|done]. }
  apply get_vehicle_by_license_plate_Some in Hg as [[i Hi] Heq].
  assert (Hr : release_slot self (SlotAssignment.slot_number a)
               = (true, with_slots self (<[i := None]> (slots self)))).
  { rewrite (Hnum i a Hi).
    pose proof (lookup_lt_Some _ _ _ Hi) as Hlt. unfold wf_slots in Hwf.
    unfold release_slot, slots_get, slots_set.
    rewrite (proj2 (Z.leb_le 0 (Z.of_nat i))) by lia.
    rewrite (proj2 (Z.ltb_lt (Z.of_nat i) (total_slots self))) by lia.
    simpl. rewrite Nat2Z.id, Hi. done. }
  rewrite Hr. simpl. split; [split; eauto|]. split; [done|]. intros _.
  pose proof (inv_clear _ _ _ Hinv Hi) as Hinv'.
  pose proof (table_plate_elsewhere _ _ _ Hinv Hi) as Hgone.
  rewrite Heq in Hgone.
  split; [done|]. split; [|split].
  - apply get_vehicle_by_license_plate_None. intros j a' Hj Heq'.
    apply Hgone. rewrite <- Heq'. by apply (table_plate_held _ j).
  - by apply is_duplicate_license_plate_false.
  - split; [done|]. exists i, a. done.
Qed.

(** X10: under the invariant an accepted [assign_vehicle] returns a slot
    of the table; afterwards that slot holds the new assignment and the
    other slots hold what they held, the vehicle is found under every
    spelling of its plate, and every further assignment of such a plate is
    rejected. *)
Theorem assign_vehicle_then_lookup self now v p price d k :
  inv self →
  fst (assign_vehicle self now v p price d) = Some k →
  let self' := snd (assign_vehicle self now v p price d) in
  let a := new_assignment now k v p price d in
  0 ≤ k < total_slots self ∧
  get_slot_assignment self k = None ∧
  get_slot_assignment self' k = Some a ∧
  (∀ j, j ≠ k → get_slot_assignment self' j = get_slot_assignment self j) ∧
  ∀ q, _normalize_license_plate q = _normalize_license_plate p →
       get_vehicle_by_license_plate self' q = Some a ∧
       is_duplicate_license_plate self' q = true ∧
       ∀ now' v' price' d',
         assign_vehicle self' now' v' q price' d' = (None, self').
Proof.
  intros Hinv.
  destruct (assign_vehicle_cases self now v p price d)
    as [->|(k' & Hav & Hdup & ->)]; [done|]. simpl. intros [= ->].
  pose proof Hav as [Hk Hfree]%is_slot_available_true.
  pose proof (inv_place self now k v p price d Hinv Hav Hdup) as Hinv'.
  assert (Hnew : slots (place self now k v p price d) !! Z.to_nat k
                 = Some (Some (new_assignment now k v p price d))).
  { simpl. apply list_lookup_insert_eq. by eapply lookup_lt_Some. }
  split; [done|]. split; [|split; [|split]].
  - rewrite get_slot_assignment_lookup by done. by rewrite Hfree.
  - rewrite get_slot_assignment_lookup by done. by rewrite Hnew.
  - intros j Hne. unfold get_slot_assignment, slots_get. simpl.
    destruct (0 <=? j) eqn:H0; [|done]. apply Z.leb_le in H0.
    by rewrite list_lookup_insert_ne by lia.
  - intros q Hq.
    assert (Hfound : get_vehicle_by_license_plate
                       (place self now k v p price d) q
                     = Some (new_assignment now k v p price d)).
    { by apply (get_vehicle_by_license_plate_held _ _ (Z.to_nat k)). }
    assert (Hheld : is_duplicate_license_plate
                      (place self now k v p price d) q = true).
    { apply is_duplicate_license_plate_true. rewrite Hq.
      apply (table_plate_held _ _ _ Hnew). }
    split; [done|]. split; [done|]. intros now' v' price' d'.
    unfold assign_vehicle. by rewrite Hheld.
Qed.

(** X11: under the invariant, after an accepted [mark_vehicle_as_sold] the
    plate still counts as a duplicate although it is no longer found in the
    slot table: [assign_vehicle] and [add_vehicle_manually] reject it, and a
    second sale and a release by plate fail and change nothing; the pool
    holds one record more. *)
Theorem sold_plate_stays_blocked self now p sp b :
  inv self →
  fst (mark_vehicle_as_sold self now p sp b) = true →
  let self' := snd (mark_vehicle_as_sold self now p sp b) in
  inv self' ∧
  get_sold_vehicles_count self' = S (get_sold_vehicles_count self) ∧
  ∀ q, _normalize_license_plate q = _normalize_license_plate p →
       is_duplicate_license_plate self' q = true ∧
       get_vehicle_by_license_plate self' q = None ∧
       (∀ now' v price d,
          assign_vehicle self' now' v q price d = (None, self')) ∧
       (∀ now' price v pref d,
          add_vehicle_manually self' now' q price v pref d = (None, self')) ∧
       (∀ now' sp' b',
          mark_vehicle_as_sold self' now' q sp' b' = (false, self')) ∧
       release_by_license_plate self' q = (false, self').
Proof.
  intros Hinv. rewrite mark_vehicle_as_sold_unfold.
  destruct (get_vehicle_by_license_plate self p) as [a|] eqn:Hg; [|done].
  destruct (list_find _ _) as [[idx o]|] eqn:Hf; [|done]. simpl. intros _.
  apply get_vehicle_by_license_plate_Some in Hg as [[i Hi] Heq].
  apply list_find_Some in Hf as (Hidx & -> & _).
  set (self' := move_to_pool self now a idx sp b).
  assert (Hinv' : inv self') by (by apply (inv_move _ _ i)).
  assert (Hrec : sold_vehicles self' !! idx
                 = Some (Some (sold_record now a idx sp b))).
  { simpl. apply list_lookup_insert_eq. by eapply lookup_lt_Some. }
  split; [done|]. split.
  { unfold get_sold_vehicles_count, get_sold_vehicles. simpl.
    by rewrite (omap_id_insert_free _ _ _ Hidx). }
  intros q Hq.
  assert (Hdup : is_duplicate_license_plate self' q = true).
  { apply is_duplicate_license_plate_true. rewrite Hq, <- Heq.
    apply (pool_plate_held _ _ _ Hrec). }
  assert (Hnone : get_vehicle_by_license_plate self' q = None).
  { apply get_vehicle_by_license_plate_None. intros j a' Hj Heq'.
    apply (table_plate_not_in_pool self' j a' idx _ Hinv' Hj Hrec).
    simpl. congruence. }
  split; [done|]. split; [done|]. repeat split.
  - intros. unfold assign_vehicle. by rewrite Hdup.
  - intros. unfold add_vehicle_manually. by rewrite Hdup.
  - intros. rewrite mark_vehicle_as_sold_unfold. by rewrite Hnone.
  - unfold release_by_license_plate. by rewrite Hnone.
Qed.

(** X12: under the invariant, after [complete_vehicle_handover] returned
    [True] the plate is held nowhere: it is not a duplicate any more, a
    second completion returns [False] and changes nothing, and the pool
    holds one record less. *)
Theorem handover_frees_plate self p :
  inv self →
  fst (complete_vehicle_handover self p) = true →
  let self' := snd (complete_vehicle_handover self p) in
  inv self' ∧
  S (get_sold_vehicles_count self') = get_sold_vehicles_count self ∧
  ∀ q, _normalize_license_plate q = _normalize_license_plate p →
       is_duplicate_license_plate self' q = false ∧
       complete_vehicle_handover self' q = (false, self').
Proof.
  intros Hinv.
  destruct (complete_vehicle_handover_cases self p)
    as [[-> _]|(idx & r & Hi & Heq & _ & ->)]; [done|]. simpl. intros _.
  pose proof (inv_handover _ _ _ Hinv Hi) as Hinv'.
  split; [done|]. split.
  { unfold get_sold_vehicles_count, get_sold_vehicles. simpl.
    by rewrite (omap_id_insert_clear _ _ _ Hi) at 1. }
  intros q Hq.
  assert (Hfree : _normalize_license_plate q
    ∉ normalized_plates
        (with_sold_vehicles self (<[idx := None]> (sold_vehicles self)))).
  { destruct Hinv as (_ & _ & Hnd).
    rewrite (normalized_plates_handover _ _ _ Hi) in Hnd.
    apply NoDup_cons in Hnd as [Hnot _]. congruence. }
  split; [by apply is_duplicate_license_plate_false|].
  destruct (complete_vehicle_handover_cases
              (with_sold_vehicles self (<[idx := None]> (sold_vehicles self)))
              q) as [[-> _]|(idx' & r' & Hi' & Heq' & _)]; [done|].
  destruct Hfree. rewrite <- Heq'. by apply (pool_plate_held _ idx').
Qed.

End Lifecycle.

(** ** Counts, the pool and the order of filling *)

Section Counting.

Context {Strategy : Type} `{!SlotAssignmentStrategy Strategy}.

Implicit Types (self : KeySlotManager Strategy) (k : Z) (p q : string).

Lemma length_free_and_taken {A} (l : list (option A)) :
  length l
  = (length (filter (λ x, x = None) l) + length (omap id l))%nat.
Proof.
  induction l as [|[x|] l IH]; [done| |].
  - rewrite filter_cons_False by done. cbn. lia.
  - rewrite filter_cons_True by done. cbn in *. lia.
Qed.

Lemma no_free_entry {A} (l : list (option A)) :
  length (filter (λ x, x = None) l) = 0%nat ↔ ∀ i, l !! i ≠ Some None.
Proof.
  induction l as [|[x|] l IH].
  - split; [by intros _ i|done].
  - rewrite filter_cons_False by done. rewrite IH. split.
    + intros Hall [|i]; [done|apply Hall].
    + intros Hall i. apply (Hall (S i)).
  - rewrite filter_cons_True by done. split; [done|].
    intros Hall. by destruct (Hall 0%nat).
Qed.

Lemma get_available_slots_count_eq self :
  get_available_slots_count self
  = Z.of_nat (length (slots self))
    - Z.of_nat (length (get_all_assignments self)).
Proof.
  unfold get_available_slots_count, get_all_assignments.
  pose proof (length_free_and_taken (slots self)). lia.
Qed.

(** X13: when the key set of the slot dict is [range(total_slots)] and
    [total_slots] is not negative, the occupied count is the number of
    assignments, the available count lies between 0 and [total_slots], and
    it is 0 exactly when no slot of the table is available; with a negative
    [total_slots] the occupied count is that negative number. *)
Theorem slot_counts self :
  wf_slots self →
  (0 ≤ total_slots self →
   get_occupied_slots_count self
   = Z.of_nat (length (get_all_assignments self)) ∧
   0 ≤ get_available_slots_count self ≤ total_slots self ∧
   (get_available_slots_count self = 0 ↔
    ∀ j, 0 ≤ j < total_slots self → is_slot_available self j = false)) ∧
  (total_slots self < 0 →
   get_available_slots_count self = 0 ∧
   get_occupied_slots_count self = total_slots self).
Proof.
  intros Hwf. unfold wf_slots in Hwf. split.
  - intros Hpos.
    pose proof (get_available_slots_count_eq self) as Heq.
    pose proof (omap_id_length_le (slots self)) as Hle.
    fold (get_all_assignments self) in Hle.
    unfold get_occupied_slots_count. split; [lia|]. split; [lia|].
    unfold get_available_slots_count.
    rewrite <- Nat2Z.inj_0, Nat2Z.inj_iff, no_free_entry. split.
    + intros Hall j Hj. apply is_slot_available_false. intros [_ Hl].
      by apply (Hall (Z.to_nat j)).
    + intros Hall i Hi.
      pose proof (lookup_lt_Some _ _ _ Hi) as Hlt.
      specialize (Hall (Z.of_nat i)).
      rewrite is_slot_available_false in Hall. apply Hall; [lia|].
      split; [lia|]. by rewrite Nat2Z.id.
  - intros Hneg.
    assert (Hnil : slots self = []).
    { apply length_zero_iff_nil. rewrite Hwf. lia. }
    unfold get_occupied_slots_count, get_available_slots_count.
    rewrite Hnil. simpl. lia.
Qed.

(** X14: under the invariant an accepted [assign_vehicle] lowers the
    available count by one, a successful [release_slot] and a successful
    [mark_vehicle_as_sold] raise it by one, and [complete_vehicle_handover]
    leaves it as it is. *)
Theorem slot_counts_step self :
  inv self →
  (∀ now v p price d,
     is_Some (fst (assign_vehicle self now v p price d)) →
     get_available_slots_count (snd (assign_vehicle self now v p price d))
     = get_available_slots_count self - 1) ∧
  (∀ k, fst (release_slot self k) = true →
     get_available_slots_count (snd (release_slot self k))
     = get_available_slots_count self + 1) ∧
  (∀ now p sp b,
     fst (mark_vehicle_as_sold self now p sp b) = true →
     get_available_slots_count (snd (mark_vehicle_as_sold self now p sp b))
     = get_available_slots_count self + 1) ∧
  (∀ p, get_available_slots_count (snd (complete_vehicle_handover self p))
        = get_available_slots_count self).
Proof.
  intros Hinv. pose proof Hinv as (Hwf & Hnum & Hnd).
  assert (Hclear : ∀ i a, slots self !! i = Some (Some a) →
    get_available_slots_count (with_slots self (<[i := None]> (slots self)))
    = get_available_slots_count self + 1).
  { intros i a Hi. rewrite !get_available_slots_count_eq.
    unfold get_all_assignments. simpl. rewrite length_insert.
    pose proof (Permutation_length (omap_id_insert_clear _ _ _ Hi)) as Hl.
    simpl in Hl. lia. }
  split; [|split; [|split]].
  - intros now v p price d Hsome.
    destruct (assign_vehicle_cases self now v p price d)
      as [Heq|(k & Hav & _ & Heq)]; rewrite Heq in *; [by destruct Hsome|].
    apply is_slot_available_true in Hav as [_ Hk].
    rewrite !get_available_slots_count_eq. unfold get_all_assignments.
    simpl. rewrite length_insert.
    pose proof (Permutation_length
                  (omap_id_insert_free _ _
                     (new_assignment now k v p price d) Hk)) as Hl.
    simpl in Hl. lia.
  - intros k.
    destruct (release_slot_cases self k) as [->|(a & Hk & ->)]; [done|].
    intros _. by apply (Hclear _ a).
  - intros now p sp b. rewrite mark_vehicle_as_sold_unfold.
    destruct (get_vehicle_by_license_plate self p) as [a|] eqn:Hg; [|done].
    destruct (list_find _ _) as [[idx o]|]; [|done]. intros _.
    apply get_vehicle_by_license_plate_Some in Hg as [[i Hi] _].
    rewrite <- (Hclear i a Hi). simpl.
    unfold get_available_slots_count, move_to_pool, slots_set. simpl.
    rewrite (Hnum i a Hi), (proj2 (Z.leb_le 0 (Z.of_nat i))) by lia.
    by rewrite Nat2Z.id.
  - intros p.
    by destruct (complete_vehicle_handover_cases self p)
      as [[-> _]|(idx & r & _ & _ & _ & ->)].
Qed.

(** *** The pool *)

Lemma step_frame self o :
  total_slots (step self o) = total_slots self ∧
  assignment_strategy (step self o) = assignment_strategy self.
Proof.
  destruct o as [now v p price d|now p price v pref d|now p sp b|p|k|p];
    simpl.
  - by destruct (assign_vehicle_cases self now v p price d)
      as [->|(k & _ & _ & ->)].
  - by destruct (add_vehicle_manually_cases self now p price v pref d)
      as [->|(k & _ & _ & ->)].
  - rewrite mark_vehicle_as_sold_unfold.
    destruct (get_vehicle_by_license_plate self p); [|done].
    by destruct (list_find _ _) as [[? ?]|].
  - by destruct (complete_vehicle_handover_cases self p)
      as [[-> _]|(idx & r & _ & _ & _ & ->)].
  - by destruct (release_slot_cases self k) as [->|(a & _ & ->)].
  - unfold release_by_license_plate.
    destruct (get_vehicle_by_license_plate self p) as [a|]; [|done].
    by destruct (release_slot_cases self (SlotAssignment.slot_number a))
      as [->|(a' & _ & ->)].
Qed.

Lemma step_pool_ok self o : inv self → pool_ok self → pool_ok (step self o).
Proof.
  intros Hinv Hpool. pose proof Hinv as (Hwf & Hnum & _).
  destruct o as [now v p price d|now p price v pref d|now p sp b|p|k|p];
    simpl.
  - by destruct (assign_vehicle_cases self now v p price d)
      as [->|(k & _ & _ & ->)].
  - by destruct (add_vehicle_manually_cases self now p price v pref d)
      as [->|(k & _ & _ & ->)].
  - rewrite mark_vehicle_as_sold_unfold.
    destruct (get_vehicle_by_license_plate self p) as [a|] eqn:Hg; [|done].
    destruct (list_find _ _) as [[idx o]|] eqn:Hf; [|done]. simpl.
    apply get_vehicle_by_license_plate_Some in Hg as [[i Hi] _].
    apply list_find_Some in Hf as (Hidx & _ & _).
    destruct Hpool as [Hlen Hrec]. split.
    + simpl. by rewrite length_insert.
    + intros j v. simpl. destruct (decide (j = idx)) as [->|Hne].
      * rewrite list_lookup_insert_eq by (by eapply lookup_lt_Some).
        intros [= <-]. simpl. split; [done|]. rewrite (Hnum i a Hi).
        pose proof (lookup_lt_Some _ _ _ Hi). unfold wf_slots in Hwf. lia.
      * rewrite list_lookup_insert_ne by done. apply Hrec.
  - destruct (complete_vehicle_handover_cases self p)
      as [[-> _]|(idx & r & _ & _ & _ & ->)]; [done|]. simpl.
    destruct Hpool as [Hlen Hrec]. split.
    + simpl. by rewrite length_insert.
    + intros j v. simpl. destruct (decide (j = idx)) as [->|Hne].
      * destruct (decide (idx < length (sold_vehicles self))%nat).
        -- by rewrite list_lookup_insert_eq.
        -- rewrite list_insert_ge by lia. apply Hrec.
      * rewrite list_lookup_insert_ne by done. apply Hrec.
  - by destruct (release_slot_cases self k) as [->|(a & _ & ->)].
  - unfold release_by_license_plate.
    destruct (get_vehicle_by_license_plate self p) as [a|]; [|done].
    by destruct (release_slot_cases self (SlotAssignment.slot_number a))
      as [->|(a' & _ & ->)].
Qed.

(** X15: in every state reached from the constructor by the operations of
    the manager the pool has ten entries, so at most ten vehicles are
    pending; the record at pool index [i] is labelled v(i+1) and remembers a
    slot of the table; and [total_slots] and the strategy are those given to
    the constructor. *)
Theorem pool_ok_run (total : Z) (strategy : option Strategy) ops :
  let self := run (init total strategy) ops in
  pool_ok self ∧
  (get_sold_vehicles_count self ≤ SOLD_VEHICLE_SLOTS)%nat ∧
  total_slots self = total ∧
  assignment_strategy self = strategy.
Proof.
  simpl.
  assert (Hgen : ∀ self, inv self → pool_ok self →
    pool_ok (run self ops) ∧
    total_slots (run self ops) = total_slots self ∧
    assignment_strategy (run self ops) = assignment_strategy self).
  { induction ops as [|o ops IH]; intros self Hinv Hpool; [done|]. simpl.
    destruct (step_frame self o) as [Ht Hs].
    destruct (IH (step self o)) as (? & ? & ?);
      [by apply step_inv|by apply step_pool_ok|].
    split; [done|]. split; congruence. }
  destruct (Hgen (init total strategy)) as (Hpool & Ht & Hs).
  { apply inv_init. }
  { split; [done|]. intros idx v Hl.
    unfold init, sold_vehicles in Hl.
    apply lookup_replicate in Hl as [? _]. done. }
  split; [done|]. split; [|done].
  destruct Hpool as [Hlen _]. rewrite <- Hlen.
  apply omap_id_length_le.
Qed.

(** *** Filling without a strategy *)

Lemma assign_all_first_fit calls self j :
  assignment_strategy self = None →
  0 ≤ j →
  (∀ i, is_slot_available self i = true ↔ j ≤ i < total_slots self) →
  NoDup (_normalize_license_plate ∘ call_license_plate <$> calls) →
  (∀ c, c ∈ calls →
        _normalize_license_plate (call_license_plate c)
        ∉ normalized_plates self) →
  fst (assign_all self calls)
  = (λ i, if i <? total_slots self then Some i else None)
      <$> seqZ j (Z.of_nat (length calls)).
Proof.
  revert self j.
  induction calls as [|c calls IH]; intros self j Hs Hj Hfree Hnd Hnew;
    [done|].
  rewrite fmap_cons in Hnd. apply NoDup_cons in Hnd as [Hc Hnd].
  assert (Hdup : is_duplicate_license_plate self (call_license_plate c)
                 = false).
  { apply is_duplicate_license_plate_false, Hnew. by left. }
  pose proof (assign_vehicle_chosen self (call_now c) (call_vehicle_id c)
                (call_license_plate c) (call_price c) (call_data c) Hdup)
    as Hfst.
  rewrite Hs in Hfst.
  rewrite length_cons, Nat2Z.inj_succ, seqZ_cons by lia.
  replace (Z.pred (Z.succ (Z.of_nat (length calls))))
    with (Z.of_nat (length calls)) by lia.
  rewrite fmap_cons. simpl. unfold do_assign.
  destruct (assign_vehicle_cases self (call_now c) (call_vehicle_id c)
              (call_license_plate c) (call_price c) (call_data c))
    as [Heq|(k & Hav & _ & Heq)]; rewrite Heq in *; simpl in *.
  - symmetry in Hfst. rewrite get_available_slot_in_range_None in Hfst.
    assert (Hfull : total_slots self ≤ j).
    { destruct (decide (total_slots self ≤ j)) as [|Hlt]; [done|].
      assert (is_slot_available self j = true) as Hav by (apply Hfree; lia).
      rewrite Hfst in Hav by lia. done. }
    specialize (IH self (Z.succ j) Hs).
    destruct (assign_all self calls) as [rs self'] eqn:Hrest. simpl in *.
    rewrite (proj2 (Z.ltb_ge j (total_slots self))) by lia. f_equal.
    apply IH; [lia| |done|].
    + intros i. rewrite Hfree. lia.
    + intros c' Hc'. apply Hnew. by right.
  - symmetry in Hfst.
    apply get_available_slot_in_range_Some in Hfst as (_ & _ & Hmin).
    assert (k = j) as ->.
    { pose proof (proj1 (Hfree k) Hav) as Hk.
      destruct (decide (k = j)) as [|Hne]; [done|].
      assert (is_slot_available self j = true) as Hav' by (apply Hfree; lia).
      rewrite Hmin in Hav' by lia. done. }
    pose proof (proj1 (Hfree j) Hav) as Hjt.
    set (self1 := place self (call_now c) j (call_vehicle_id c)
                    (call_license_plate c) (call_price c) (call_data c))
      in *.
    specialize (IH self1 (Z.succ j) Hs).
    destruct (assign_all self1 calls) as [rs self'] eqn:Hrest. simpl in *.
    rewrite (proj2 (Z.ltb_lt j (total_slots self))) by lia. f_equal.
    apply IH; [lia| |done|].
    + intros i. unfold self1. rewrite is_slot_available_place by done.
      destruct (decide (i = j)) as [->|Hne]; [split; [done|lia]|].
      rewrite Hfree. lia.
    + intros c' Hc'. unfold self1.
      rewrite normalized_plates_place by done. intros [Heq'|Hin]%elem_of_cons.
      * apply Hc. rewrite <- Heq'. apply list_elem_of_fmap. by exists c'.
      * revert Hin. apply Hnew. by right.
Qed.

(** X16: an empty manager without a strategy gives the vehicles of a
    sequence of [assign_vehicle] calls with pairwise different plates the
    slots 0, 1, 2, ... in call order, and rejects every call after the
    table is full. *)
Theorem first_fit_fills_in_order (total : Z) calls :
  NoDup (_normalize_license_plate ∘ call_license_plate <$> calls) →
  fst (assign_all (init total (@None Strategy)) calls)
  = (λ i, if i <? total then Some i else None)
      <$> seqZ 0 (Z.of_nat (length calls)).
Proof.
  intros Hnd.
  apply (assign_all_first_fit calls (init total None) 0); [done|lia| |done|].
  - intros i. rewrite is_slot_available_true. simpl.
    rewrite list_lookup_fmap. split.
    + by intros [? _].
    + intros Hi. split; [done|].
      unfold range. rewrite lookup_seqZ_lt by lia. done.
  - intros c _. unfold normalized_plates, get_all_assignments,
      get_sold_vehicles. simpl. rewrite omap_id_all_None. simpl.
    apply not_elem_of_nil.
Qed.

End Counting.

(** ** The application *)

Section Application.

Context {Strategy : Type} `{!SlotAssignmentStrategy Strategy}.

Variable isoformat : datetime → string.

Implicit Types (self : KeySlotManager Strategy) (k : Z) (p q : string).

Lemma get_vehicle_by_license_plate_spelling self p q :
  _normalize_license_plate q = _normalize_license_plate p →
  get_vehicle_by_license_plate self q = get_vehicle_by_license_plate self p.
Proof. unfold get_vehicle_by_license_plate. by intros ->. Qed.


Lemma pool_search_Some self p r :
  KeyManagementApp.pool_search self p = Some r →
  (∃ idx, sold_vehicles self !! idx = Some (Some r)) ∧
  _normalize_license_plate (SoldVehicle.license_plate r)
  = _normalize_license_plate p.
Proof.
  unfold KeyManagementApp.pool_search. intros [Hin Hm]%find_some.
  apply String.eqb_eq in Hm. split; [|done].
  by apply elem_of_omap_id, list_elem_of_In.
Qed.

Lemma pool_search_None self p :
  KeyManagementApp.pool_search self p = None ↔
  ∀ idx r, sold_vehicles self !! idx = Some (Some r) →
    _normalize_license_plate (SoldVehicle.license_plate r)
    ≠ _normalize_license_plate p.
Proof.
  unfold KeyManagementApp.pool_search. split.
  - intros Hf idx r Hi Heq.
    assert (Hin : In r (omap id (sold_vehicles self))).
    { apply list_elem_of_In, elem_of_omap_id. eauto. }
    pose proof (find_none _ _ Hf r Hin) as Hm. simpl in Hm.
    apply String.eqb_neq in Hm. by apply Hm.
  - intros Hall. destruct (find _ _) as [r|] eqn:Hf; [|done].
    apply find_some in Hf as [Hin Hm]. apply String.eqb_eq in Hm.
    apply list_elem_of_In, elem_of_omap_id in Hin as [idx Hi].
    by destruct (Hall idx r Hi).
Qed.


Lemma find_vehicle_unfold self p :
  KeyManagementApp.find_vehicle isoformat self p
  = match get_vehicle_by_license_plate self p with
    | Some assignment =>
        Some [("status", PyStr "in_stock");
              ("slot_number", PyInt (SlotAssignment.slot_number assignment));
              ("license_plate",
               PyStr (SlotAssignment.license_plate assignment));
              ("purchase_price",
               PyFloat (SlotAssignment.purchase_price assignment));
              ("assigned_at",
               PyStr (isoformat (SlotAssignment.assigned_at assignment)));
              ("vehicle_data",
               py_optional PyDict (SlotAssignment.vehicle_data assignment))]
    | None =>
        match KeyManagementApp.pool_search self p with
        | Some sold =>
            Some [("status", PyStr "sold");
                  ("sold_slot", PyStr (SoldVehicle.sold_slot sold));
                  ("original_slot", PyInt (SoldVehicle.original_slot sold));
                  ("license_plate", PyStr (SoldVehicle.license_plate sold));
                  ("purchase_price",
                   PyFloat (SoldVehicle.purchase_price sold));
                  ("sold_at", PyStr (isoformat (SoldVehicle.sold_at sold)));
                  ("sold_price",
                   py_optional PyFloat (SoldVehicle.sold_price sold))]
        | None => None
        end
    end.
Proof. reflexivity. Qed.


(** X17: under the invariant [process_new_vehicle] keeps the invariant and
    is idempotent: when it returns a slot, processing the vehicle again —
    under any spelling of the plate and with any id, price or data — returns
    the same slot and changes nothing; a vehicle already in the table is
    left alone, and so is the manager when [None] is returned. *)
Theorem process_new_vehicle_idempotent self now v p price d :
  inv self →
  let r := KeyManagementApp.process_new_vehicle self now v p price d in
  inv (snd r) ∧
  (is_Some (get_vehicle_by_license_plate self p) → snd r = self) ∧
  (fst r = None → snd r = self) ∧
  ∀ k, fst r = Some k →
    0 ≤ k < total_slots self ∧
    ∀ now' v' q price' d',
      _normalize_license_plate q = _normalize_license_plate p →
      KeyManagementApp.process_new_vehicle (snd r) now' v' q price' d'
      = (Some k, snd r).
Proof.
  intros Hinv. pose proof Hinv as (Hwf & Hnum & _). simpl.
  unfold KeyManagementApp.process_new_vehicle.
  destruct (get_vehicle_by_license_plate self p) as [a|] eqn:Hg; simpl.
  - split; [done|]. split; [done|]. split; [done|]. intros k [= <-].
    pose proof Hg as [[i Hi] _]%get_vehicle_by_license_plate_Some.
    split.
    + rewrite (Hnum i a Hi). pose proof (lookup_lt_Some _ _ _ Hi).
      unfold wf_slots in Hwf. lia.
    + intros now' v' q price' d' Hq.
      by rewrite (get_vehicle_by_license_plate_spelling _ _ _ Hq), Hg.
  - destruct (assign_vehicle_cases self now v p price d)
      as [->|(k & Hav & Hdup & ->)]; simpl.
    { split; [done|]. split; [by intros [? ?]|]. done. }
    pose proof (inv_place self now k v p price d Hinv Hav Hdup) as Hinv'.
    pose proof Hav as [Hk Hfree]%is_slot_available_true.
    split; [done|]. split; [by intros [? ?]|]. split; [done|].
    intros k' [= <-]. split; [done|]. intros now' v' q price' d' Hq.
    rewrite (get_vehicle_by_license_plate_held
               (place self now k v p price d) q (Z.to_nat k)
               (new_assignment now k v p price d)); [done|done| |done].
    simpl. apply list_lookup_insert_eq. by eapply lookup_lt_Some.
Qed.

(** X18: [find_vehicle] returns [None] exactly for the plates the manager
    does not count as duplicates; a result has status in_stock when the
    plate is in the slot table and sold otherwise; and under the invariant
    the slot number of an in_stock result is the slot that holds the
    vehicle. *)
Theorem find_vehicle_consistent self p :
  (KeyManagementApp.find_vehicle isoformat self p = None ↔
   is_duplicate_license_plate self p = false) ∧
  (∀ d, KeyManagementApp.find_vehicle isoformat self p = Some d →
        dict_get d "status"
        = Some (PyStr (match get_vehicle_by_license_plate self p with
                       | Some _ => "in_stock"
                       | None => "sold"
                       end))) ∧
  (inv self →
   ∀ d k, KeyManagementApp.find_vehicle isoformat self p = Some d →
          dict_get d "slot_number" = Some (PyInt k) →
          ∃ a, get_slot_assignment self k = Some a ∧
               _normalize_license_plate (SlotAssignment.license_plate a)
               = _normalize_license_plate p).
Proof.
  rewrite find_vehicle_unfold. split; [|split].
  - destruct (get_vehicle_by_license_plate self p) as [a|] eqn:Hg.
    + split; [done|]. intros Hdup. exfalso.
      apply is_duplicate_license_plate_false in Hdup. apply Hdup.
      apply get_vehicle_by_license_plate_Some in Hg as [[i Hi] <-].
      by apply (table_plate_held _ i).
    + destruct (KeyManagementApp.pool_search self p) as [r|] eqn:Hf.
      * split; [done|]. intros Hdup. exfalso.
        apply is_duplicate_license_plate_false in Hdup. apply Hdup.
        apply pool_search_Some in Hf as [[idx Hi] <-].
        by apply (pool_plate_held _ idx).
      * split; [|done]. intros _. apply is_duplicate_license_plate_false.
        unfold normalized_plates. rewrite elem_of_app, !list_elem_of_fmap.
        rewrite get_vehicle_by_license_plate_None in Hg.
        rewrite pool_search_None in Hf.
        intros [(a & Heq & [i Hi]%elem_of_omap_id)
               |(r & Heq & [i Hi]%elem_of_omap_id)].
        -- by apply (Hg i a).
        -- by apply (Hf i r).
  - intros d. destruct (get_vehicle_by_license_plate self p) as [a|].
    + by intros [= <-].
    + destruct (KeyManagementApp.pool_search self p) as [r|]; [|done]. by intros [= <-].
  - intros Hinv d k. pose proof Hinv as (Hwf & Hnum & _).
    destruct (get_vehicle_by_license_plate self p) as [a|] eqn:Hg.
    + intros [= <-]. intros [= <-]. exists a.
      apply get_vehicle_by_license_plate_Some in Hg as [[i Hi] Heq].
      split; [|done]. rewrite (Hnum i a Hi).
      pose proof (lookup_lt_Some _ _ _ Hi). unfold wf_slots in Hwf.
      rewrite get_slot_assignment_lookup by lia. by rewrite Nat2Z.id, Hi.
    + destruct (KeyManagementApp.pool_search self p) as [r|]; [|done]. by intros [= <-].
Qed.

(** X19: [get_slot_status] always returns a dictionary; its status is
    available exactly when [get_slot_assignment] returns [None], so an index
    outside the table is reported as available although
    [is_slot_available] answers [False] for it; for a slot of a table whose
    key set is [range(total_slots)] the status is available exactly when
    the slot is available. *)
Theorem get_slot_status_edges self k :
  (∃ d, KeyManagementApp.get_slot_status isoformat self k = Some d ∧
        dict_get d "slot_number" = Some (PyInt k) ∧
        dict_get d "status"
        = Some (PyStr (match get_slot_assignment self k with
                       | Some _ => "occupied"
                       | None => "available"
                       end))) ∧
  (¬ 0 ≤ k < total_slots self →
   get_slot_assignment self k = None ∧ is_slot_available self k = false) ∧
  (wf_slots self → 0 ≤ k < total_slots self →
   (get_slot_assignment self k = None ↔ is_slot_available self k = true)).
Proof.
  split; [|split].
  - unfold KeyManagementApp.get_slot_status.
    destruct (get_slot_assignment self k); eexists; done.
  - intros Hout. split.
    + unfold get_slot_assignment.
      destruct (0 <=? k) eqn:H0, (k <? total_slots self) eqn:H1; try done.
      apply Z.leb_le in H0. apply Z.ltb_lt in H1. lia.
    + apply is_slot_available_false. by intros [? _].
  - intros Hwf Hk. rewrite get_slot_assignment_lookup by done.
    rewrite is_slot_available_true.
    unfold wf_slots in Hwf.
    destruct (lookup_lt_is_Some_2 (slots self) (Z.to_nat k)) as [o Ho];
      [lia|].
    rewrite Ho. simpl. destruct o; split; try done; by intros [_ [=]].
Qed.


End Application.

(** ** The further properties on the stocked manager *)

Lemma stocked_sold_inv : inv stocked_sold.
Proof. apply step_inv, stocked_inv. Qed.


Lemma assign_vehicle_to_slot_spec_witness :
  fst (assign_vehicle_to_slot stocked 5 150 "V-100" "KB-100" f1500 None true)
  = true.
Proof.
  pose proof (assign_vehicle_to_slot_spec stocked 5 150 "V-100" "KB-100"
                f1500 None true) as H.
  cbv zeta in H. destruct H as (H & _). apply H.
  split; [by vm_compute|]. right. by vm_compute.
Defined.

Lemma assign_vehicle_in_range_witness :
  ∃ k, fst (assign_vehicle stocked 5 "V-100" "KB-100" f3500 None) = Some k ∧
       0 ≤ k ≤ 50.
Proof.
  destruct (assign_vehicle_in_range stocked 5 "V-100" "KB-100" f3500 None
              default_strategy 0 50) as (k & Hk & Hr & _).
  - reflexivity.
  - reflexivity.
  - by vm_compute.
  - exists 11. split; [lia|]. by vm_compute.
  - exists k. rewrite Hk. cbn [fst]. split; [reflexivity|exact Hr].
Defined.

Lemma add_vehicle_manually_outcome_witness :
  fst (add_vehicle_manually stocked 5 "ka-001" f1500 None (Some 150) None)
  = None.
Proof.
  pose proof (add_vehicle_manually_outcome stocked 5 "ka-001" f1500 None
                (Some 150) None) as H.
  cbv zeta in H. destruct H as (H & _). apply H. left. by vm_compute.
Defined.

Lemma release_slot_spec_witness :
  fst (release_slot stocked 0) = true ∧
  is_slot_available (snd (release_slot stocked 0)) 0 = true.
Proof.
  pose proof (release_slot_spec stocked 0) as H.
  cbv zeta in H. destruct H as (H1 & _ & H2).
  assert (Ht : fst (release_slot stocked 0) = true).
  { apply H1. split.
    - replace (total_slots stocked) with 200 by (by vm_compute). lia.
    - eexists. by vm_compute. }
  split; [exact Ht|]. by destruct (H2 Ht) as (_ & _ & ? & _).
Defined.

Lemma release_by_license_plate_spec_witness :
  fst (release_by_license_plate stocked "ka 001") = true ∧
  is_duplicate_license_plate
    (snd (release_by_license_plate stocked "ka 001")) "ka 001" = false.
Proof.
  pose proof (release_by_license_plate_spec stocked "ka 001" stocked_inv)
    as H.
  cbv zeta in H. destruct H as (H1 & _ & H2).
  assert (Ht : fst (release_by_license_plate stocked "ka 001") = true).
  { apply H1. vm_compute. eauto. }
  split; [exact Ht|]. by destruct (H2 Ht) as (_ & _ & ? & _).
Defined.

Lemma assign_vehicle_then_lookup_witness :
  get_slot_assignment
    (snd (assign_vehicle stocked 5 "V-100" "KB-100" f3500 None)) 11
  = Some (new_assignment 5 11 "V-100" "KB-100" f3500 None).
Proof.
  pose proof (assign_vehicle_then_lookup stocked 5 "V-100" "KB-100" f3500
                None 11 stocked_inv) as H.
  cbv zeta in H. destruct H as (_ & _ & H & _); [by vm_compute|exact H].
Defined.

Lemma sold_plate_stays_blocked_witness :
  is_duplicate_license_plate
    (snd (mark_vehicle_as_sold stocked 1 "KA-001" None None)) "ka 001"
  = true.
Proof.
  pose proof (sold_plate_stays_blocked stocked 1 "KA-001" None None
                stocked_inv) as H.
  cbv zeta in H. destruct H as (_ & _ & H); [by vm_compute|].
  apply (H "ka 001"). by vm_compute.
Defined.

Lemma handover_frees_plate_witness :
  is_duplicate_license_plate
    (snd (complete_vehicle_handover stocked_sold "ka-001")) "KA 001" = false.
Proof.
  pose proof (handover_frees_plate stocked_sold "ka-001" stocked_sold_inv)
    as H.
  cbv zeta in H. destruct H as (_ & _ & H); [by vm_compute|].
  apply (H "KA 001"). by vm_compute.
Defined.

Lemma slot_counts_witness :
  get_occupied_slots_count stocked = 11 ∧
  0 ≤ get_available_slots_count stocked ≤ total_slots stocked.
Proof.
  destruct (slot_counts stocked) as [H _]; [apply stocked_inv|].
  destruct H as (H1 & H2 & _).
  { replace (total_slots stocked) with 200 by (by vm_compute). lia. }
  split; [|exact H2]. rewrite H1. by vm_compute.
Defined.

Lemma slot_counts_step_witness :
  get_available_slots_count
    (snd (assign_vehicle stocked 5 "V-100" "KB-100" f3500 None))
  = get_available_slots_count stocked - 1.
Proof.
  destruct (slot_counts_step stocked stocked_inv) as (H & _).
  apply H. vm_compute. eauto.
Defined.

Lemma first_fit_fills_in_order_witness :
  fst (assign_all (init 2 (@None PriceBasedSlotStrategy)) three_calls)
  = [Some 0; Some 1; None].
Proof.
  rewrite (first_fit_fills_in_order 2 three_calls); [reflexivity|].
  apply (bool_decide_unpack _). vm_compute. exact I.
Defined.

Lemma process_new_vehicle_idempotent_witness :
  KeyManagementApp.process_new_vehicle
    (snd (KeyManagementApp.process_new_vehicle stocked 5 "V-100" "KB-100"
            f3500 None))
    6 "W" "kb 100" f1500 None
  = (Some 11,
     snd (KeyManagementApp.process_new_vehicle stocked 5 "V-100" "KB-100"
            f3500 None)).
Proof.
  pose proof (process_new_vehicle_idempotent stocked 5 "V-100" "KB-100" f3500
                None stocked_inv) as H.
  cbv zeta in H. destruct H as (_ & _ & _ & H).
  destruct (H 11) as [_ H']; [by vm_compute|].
  apply H'. by vm_compute.
Defined.

Lemma find_vehicle_consistent_witness :
  KeyManagementApp.find_vehicle (λ _, "") stocked "ZZ-999" = None ∧
  ∃ a, get_slot_assignment stocked 0 = Some a.
Proof.
  destruct (find_vehicle_consistent (λ _, "") stocked "ZZ-999")
    as (H1 & _ & _).
  destruct (find_vehicle_consistent (λ _, "") stocked "ka 001")
    as (_ & _ & H2).
  split; [apply H1; by vm_compute|].
  destruct (H2 stocked_inv
              (default [] (KeyManagementApp.find_vehicle (λ _, "") stocked
                             "ka 001")) 0)
    as (a & Ha & _); [by vm_compute..|].
  by exists a.
Defined.

Lemma get_slot_status_edges_witness :
  get_slot_assignment stocked 999 = None ∧
  is_slot_available stocked 999 = false.
Proof.
  destruct (get_slot_status_edges (λ _, "") stocked 999) as (_ & H & _).
  apply H. replace (total_slots stocked) with 200 by (by vm_compute). lia.
Defined.

